(** * Motor power control and PID step-goal loop of the robot OS

    A shallow embedding of [lib/enums.py], [lib/motor_v2.py] and [lib/pid.py].

    Numbers.  Python floats are modelled by exact rationals ([Q]): every
    comparison the code makes is the comparison of the rationals, and
    arithmetic does not round.  NaN, infinities and rounding are outside
    the model.  Equality of results that went through arithmetic is stated
    with [==] ([Qeq]); results that are stored unchanged are stated with [=].

    Hardware.  The ThunderBorg driver board is an external library; it is
    modelled by the record [ThunderBorg.t]: the powers commanded on each
    output so far, and the answers the board will give to the next read
    requests ([None] is "no reading").

    Time and threads.  [time.sleep] and the wall clock are left out.  What
    other threads and the encoder callback do while a loop runs is an
    input of the loop: a script of interrupt requests for [accelerate], a
    script of ticks for [step_to]. *)

From Stdlib Require Import ZArith QArith Qabs Qround List Bool Lia Lqa.
Import ListNotations.
Local Open Scope Q_scope.

(** ** Comparisons of Python numbers *)

Definition Qltb (x y : Q) : bool := negb (Qle_bool y x).
Definition Qgtb (x y : Q) : bool := Qltb y x.
Definition Qgeb (x y : Q) : bool := Qle_bool y x.

(** Python's [max(a, b)]: the first argument unless the second is greater. *)
Definition pymax (a b : Q) : Q := if Qltb a b then b else a.

(** [numpy.isclose(a, b, rtol, atol)] on finite values:
    [abs(a - b) <= atol + rtol * abs(b)]. *)
Definition isclose (a b rtol atol : Q) : bool :=
  Qle_bool (Qabs (a - b)) (atol + rtol * Qabs b).

(** ** lib/enums.py *)

Inductive Orientation := PORT | CNTR | STBD | PORT_SIDE | STBD_SIDE.

Inductive Direction := FORWARD | REVERSE.

Module Velocity.

Inductive t :=
| STOP | DEAD_SLOW | SLOW | HALF | TWO_THIRDS
| THREE_QUARTER | FULL | EMERGENCY | MAXIMUM.

(** The [value] property: the second component of each member's tuple. *)
Definition value (v : t) : Q :=
  match v with
  | STOP          => 0
  | DEAD_SLOW     => 20
  | SLOW          => 30
  | HALF          => 50
  | TWO_THIRDS    => 667 # 10
  | THREE_QUARTER => 75
  | FULL          => 90
  | EMERGENCY     => 100
  | MAXIMUM       => 100000001 # 1000000
  end.

(** All members, in declaration order. *)
Definition members : list t :=
  [STOP; DEAD_SLOW; SLOW; HALF; TWO_THIRDS; THREE_QUARTER; FULL; EMERGENCY; MAXIMUM].

(** [Velocity.get_slower_than(velocity)]. *)
Definition get_slower_than (velocity : Q) : t :=
  if Qltb velocity (value DEAD_SLOW) then STOP
  else if Qltb velocity (value SLOW) then DEAD_SLOW
  else if Qltb velocity (value HALF) then SLOW
  else if Qltb velocity (value TWO_THIRDS) then HALF
  else if Qltb velocity (value THREE_QUARTER) then TWO_THIRDS
  else if Qltb velocity (value FULL) then THREE_QUARTER
  else FULL.

End Velocity.

(** [SlewRate]: each member is [(num, ratio, pid)].  [lib/motor_v2.py] and
    [lib/pid.py] import the enumeration from [lib/slew.py]; the one of
    [lib/enums.py], with the same members and properties, is used here. *)
Module SlewRate.

Inductive t :=
| EXTREMELY_SLOW | VERY_SLOW | SLOWER | SLOW | NORMAL | FAST | VERY_FAST.

Definition ratio (s : t) : Q :=
  match s with
  | EXTREMELY_SLOW => 34 # 10000
  | VERY_SLOW      => 1 # 100
  | SLOWER         => 3 # 100
  | SLOW           => 5 # 100
  | NORMAL         => 8 # 100
  | FAST           => 20 # 100
  | VERY_FAST      => 4 # 10
  end.

Definition pid (s : t) : Q :=
  match s with
  | EXTREMELY_SLOW => 16 # 100
  | VERY_SLOW      => 22 # 100
  | SLOWER         => 38 # 100
  | SLOW           => 48 # 100
  | NORMAL         => 58 # 100
  | FAST           => 68 # 100
  | VERY_FAST      => 90 # 100
  end.

End SlewRate.

(** ** The ThunderBorg driver board

    Modelled from the spec: the ThunderBorg driver, which is not among the
    sources.  Its contract is the hardware boundary of the specification:
    [SetMotor1]/[SetMotor2] command a normalized power on an output;
    [GetMotor1]/[GetMotor2] ask the board for the power of an output and
    answer [None] when no reading is available.  The board is an output
    device with an unreliable read-back: the model keeps the powers
    commanded on each output, latest first, and the answers the board
    gives to the next reads, which are the environment's (a script, one
    answer per read; an exhausted script answers [None]). *)
Module ThunderBorg.

Record t := mk {
  sent1    : list Q;           (* powers commanded on output 1, latest first *)
  sent2    : list Q;           (* powers commanded on output 2, latest first *)
  replies1 : list (option Q);  (* answers to the next GetMotor1 calls *)
  replies2 : list (option Q)   (* answers to the next GetMotor2 calls *)
}.

Definition SetMotor1 (power : Q) (tb : t) : t :=
  mk (power :: sent1 tb) (sent2 tb) (replies1 tb) (replies2 tb).

Definition SetMotor2 (power : Q) (tb : t) : t :=
  mk (sent1 tb) (power :: sent2 tb) (replies1 tb) (replies2 tb).

Definition GetMotor1 (tb : t) : option Q * t :=
  match replies1 tb with
  | [] => (None, tb)
  | r :: rest => (r, mk (sent1 tb) (sent2 tb) rest (replies2 tb))
  end.

Definition GetMotor2 (tb : t) : option Q * t :=
  match replies2 tb with
  | [] => (None, tb)
  | r :: rest => (r, mk (sent1 tb) (sent2 tb) (replies1 tb) rest)
  end.

(** A board that has been commanded nothing yet and answers with [script]
    on both outputs. *)
Definition fresh (script1 script2 : list (option Q)) : t :=
  mk [] [] script1 script2.

End ThunderBorg.

(** ** Python control flow *)

Inductive Exception :=
| RuntimeError       (* raise RuntimeError(...) *)
| ZeroDivisionError  (* float division by zero *).

(** How a call ends: it returns a value, or an exception leaves it. *)
Inductive Result (A : Type) :=
| Return (a : A)
| Raise (e : Exception).
Arguments Return {A} a.
Arguments Raise {A} e.

Definition bind {A B : Type} (r : Result A) (k : A -> Result B) : Result B :=
  match r with
  | Return a => k a
  | Raise e => Raise e
  end.

Notation "x <- r ;; k" := (bind r (fun x => k))
  (at level 61, r at next level, right associativity).
Notation "' pat <- r ;; k" := (bind r (fun x => match x with pat => k end))
  (at level 61, pat pattern, r at next level, right associativity).

(** Python's float division: [x / y] raises on a zero divisor. *)
Definition pydiv (x y : Q) : Result Q :=
  if Qeq_bool y 0 then Raise ZeroDivisionError else Return (x / y).

(** [x is None] for [x] a float: never. *)
Definition is_None (x : Q) : bool := false.

(** [numpy.arange(start, stop, step)]: [ceil((stop - start) / step)] values
    [start + i * step].  (numpy refuses a zero step; the callers pass the
    ratio of a slew rate, which is never zero.) *)
Definition arange (start stop step : Q) : list Q :=
  if Qeq_bool step 0 then []
  else map (fun i => start + inject_Z (Z.of_nat i) * step)
           (seq 0 (Z.to_nat (Qceiling ((stop - start) / step)))).

(** ** lib/motor_v2.py *)
Module Motor.

(** The fields of a [Motor] that the modelled methods read or write.
    [_max_power_ratio] is set by [set_max_power_ratio] after construction. *)
Record t := mk {
  orientation       : Orientation;  (* _orientation *)
  max_power_ratio   : Q;            (* _max_power_ratio *)
  motor_power_limit : Q;            (* _motor_power_limit *)
  steps             : Z;            (* _steps *)
  velocity          : Q;            (* _velocity *)
  max_power         : Q;            (* _max_power *)
  max_driving_power : Q;            (* _max_driving_power *)
  interrupted       : bool          (* _interrupt *)
}.

(** [Motor.__init__]: the orientation is swapped when the configuration
    says the motors are wired backwards; counters and trackers start at
    zero; the power limit is the constant 0.99.  [_max_power_ratio] is not
    assigned by [__init__]: the attribute exists only once
    [set_max_power_ratio] was called, and reading it before raises
    [AttributeError], which this record cannot show; the field holds 0
    until then, and what is stated about the ratio is about motors on which
    [set_max_power_ratio] was called. *)
Definition init (reverse_motor_orientation : bool) (o : Orientation) : t :=
  mk (if reverse_motor_orientation
      then match o with PORT => STBD | _ => PORT end
      else o)
     0 (99 # 100) 0%Z 0 0 0 false.

Definition set_max_power_ratio (max_power_ratio : Q) (m : t) : t :=
  mk (orientation m) max_power_ratio (motor_power_limit m) (steps m)
     (velocity m) (max_power m) (max_driving_power m) (interrupted m).

Definition get_max_power_ratio (m : t) : Q := max_power_ratio m.

Definition set_interrupt (b : bool) (m : t) : t :=
  mk (orientation m) (max_power_ratio m) (motor_power_limit m) (steps m)
     (velocity m) (max_power m) (max_driving_power m) b.

Definition interrupt (m : t) : t := set_interrupt true m.
Definition reset_interrupt (m : t) : t := set_interrupt false m.
Definition is_interrupted (m : t) : bool := interrupted m.

Definition get_velocity (m : t) : Q := velocity m.
Definition get_steps (m : t) : Z := steps m.

(** The output of the board this motor is wired to:
    [SetMotor1]/[GetMotor1] for PORT, [SetMotor2]/[GetMotor2] otherwise. *)
Definition SetMotor (m : t) (power : Q) (tb : ThunderBorg.t) : ThunderBorg.t :=
  match orientation m with
  | PORT => ThunderBorg.SetMotor1 power tb
  | _ => ThunderBorg.SetMotor2 power tb
  end.

Definition GetMotor (m : t) (tb : ThunderBorg.t) : option Q * ThunderBorg.t :=
  match orientation m with
  | PORT => ThunderBorg.GetMotor1 tb
  | _ => ThunderBorg.GetMotor2 tb
  end.

(** The powers commanded so far on this motor's output, latest first. *)
Definition sent (m : t) (tb : ThunderBorg.t) : list Q :=
  match orientation m with
  | PORT => ThunderBorg.sent1 tb
  | _ => ThunderBorg.sent2 tb
  end.

(** [stop]. *)
Definition stop (m : t) (tb : ThunderBorg.t) : ThunderBorg.t := SetMotor m 0 tb.

(** The loop of [get_current_power_level]:
    [while value == None and count < 20: count += 1; value = GetMotorN()].
    [attempts] is [20 - count]. *)
Fixpoint poll (m : t) (attempts : nat) (tb : ThunderBorg.t) : option Q * ThunderBorg.t :=
  match attempts with
  | O => (None, tb)
  | S k =>
      match GetMotor m tb with
      | (Some value, tb') => (Some value, tb')
      | (None, tb') => poll m k tb'
      end
  end.

(** [get_current_power_level]. *)
Definition get_current_power_level (m : t) (tb : ThunderBorg.t) : Q * ThunderBorg.t :=
  match poll m 20 tb with
  | (None, tb') => (0, tb')
  | (Some value, tb') => (value, tb')
  end.

(** [is_in_motion]. *)
Definition is_in_motion (m : t) (tb : ThunderBorg.t) : bool * ThunderBorg.t :=
  let (level, tb') := get_current_power_level m tb in (Qgtb level 0, tb').

(** [is_stopped]. *)
Definition is_stopped (m : t) (tb : ThunderBorg.t) : bool * ThunderBorg.t :=
  let (level, tb') := get_current_power_level m tb in (Qeq_bool level 0, tb').

(** What [set_motor_power] did: the error it logged, or the driving
    power it commanded. *)
Inductive Outcome :=
| TooHigh      (* 'motor power too high' *)
| TooLow       (* 'motor power too low' *)
| PosNegJump   (* 'cannot perform positive-negative power jump' *)
| NegPosJump   (* 'cannot perform negative-positive power jump' *)
| Commanded (driving_power : Q).

Definition rejected (o : Outcome) : bool :=
  match o with Commanded _ => false | _ => true end.

(** [set_motor_power(power_level)]. *)
Definition set_motor_power (power_level : Q) (m : t) (tb : ThunderBorg.t)
  : Outcome * (t * ThunderBorg.t) :=
  if Qgtb power_level (motor_power_limit m) then (TooHigh, (m, tb))
  else if Qltb power_level (-1 * motor_power_limit m) then (TooLow, (m, tb))
  else
    let (current_power, tb1) := get_current_power_level m tb in
    if Qgtb (Qabs (current_power - power_level)) (3 # 10)
       && Qgtb current_power 0 && Qltb power_level 0
    then (PosNegJump, (m, tb1))
    else if Qgtb (Qabs (current_power - power_level)) (3 # 10)
            && Qltb current_power 0 && Qgtb power_level 0
    then (NegPosJump, (m, tb1))
    else
      let driving_power := power_level * max_power_ratio m in
      let m' := mk (orientation m) (max_power_ratio m) (motor_power_limit m)
                   (steps m) (velocity m)
                   (pymax power_level (max_power m))
                   (pymax (Qabs driving_power) (max_driving_power m))
                   (interrupted m) in
      (Commanded driving_power, (m', SetMotor m driving_power tb1)).

(** The body of the [for step_power in numpy.arange(...)] loop of
    [accelerate], over the remaining values.  [intr] tells, for each
    iteration, whether another thread called [interrupt()] before the
    loop tests the flag.  The result carries the last
    [driving_power_level]. *)
Fixpoint ramp (powers : list Q) (intr : list bool) (driving_power_level : Q)
              (m : t) (tb : ThunderBorg.t) : Q * (t * ThunderBorg.t) :=
  match powers with
  | [] => (driving_power_level, (m, tb))
  | step_power :: rest =>
      let driving_power_level := step_power * max_power_ratio m in
      let '(_, (m1, tb1)) := set_motor_power driving_power_level m tb in
      let m2 := if hd false intr then interrupt m1 else m1 in
      if interrupted m2 then (driving_power_level, (m2, tb1))
      else ramp rest (tl intr) driving_power_level m2 tb1
  end.

(** [accelerate(speed, slew_rate, steps)]. *)
Definition accelerate (speed : Q) (slew_rate : SlewRate.t) (steps : Z)
                      (intr : list bool) (m : t) (tb : ThunderBorg.t)
  : Result (t * ThunderBorg.t) :=
  let m := reset_interrupt m in
  let (current_power_level, tb) := get_current_power_level m tb in
  if is_None current_power_level then Raise RuntimeError
  else
    inv <- pydiv 1 (max_power_ratio m) ;;
    let current_power_level := current_power_level * inv in
    let desired_div_100 := speed / 100 in
    if Qeq_bool current_power_level desired_div_100 then Return (m, tb)
    else
      let '(slew_rate_ratio, overstep) :=
        if Qltb current_power_level desired_div_100
        then (SlewRate.ratio slew_rate, 1 # 1000)
        else (-1 * SlewRate.ratio slew_rate, - (1 # 1000)) in
      let '(driving_power_level, (m, tb)) :=
        ramp (arange current_power_level (desired_div_100 + overstep) slew_rate_ratio)
             intr 0 m tb in
      if Qeq_bool speed 0 && Qgtb (Qabs driving_power_level) (1 # 100000)
      then Return (m, SetMotor m 0 tb)
      else Return (m, tb).

(** [halt], [brake], [ahead], [stepAhead], [astern], [stepAstern]. *)
Definition halt := accelerate 0 SlewRate.FAST (-1).
Definition brake := accelerate 0 SlewRate.SLOWER (-1).
Definition ahead (speed : Q) := accelerate speed SlewRate.NORMAL (-1).
Definition astern (speed : Q) := accelerate (-1 * speed) SlewRate.NORMAL (-1).
Definition stepAstern (speed : Q) (steps : Z) := accelerate speed SlewRate.NORMAL steps.

End Motor.

(** ** lib/slew.py (interface)

    [lib/slew.py] is not among the sources.  [lib/pid.py] uses its
    [SlewLimiter] through the six methods below and only when the
    configuration enables slewing; the limiter is a parameter of the
    model. *)
Class SlewLimiter (SL : Type) := {
  is_enabled     : SL -> bool;
  set_rate_limit : SlewRate.t -> SL -> SL;
  enable         : SL -> SL;
  start          : SL -> SL;
  slew           : Q -> Q -> SL -> Q * SL;
  reset          : Q -> SL -> SL
}.

(** The limiter of a controller configured without slewing: there is none. *)
#[export] Instance NoSlew : SlewLimiter unit := {
  is_enabled _ := false;
  set_rate_limit _ sl := sl;
  enable sl := sl;
  start sl := sl;
  slew _ target sl := (target, sl);
  reset _ sl := sl
}.

(** ** lib/pid.py *)
Module PID.

(** One line of odometry: power (percent), current velocity, target
    velocity, steps.  (The elapsed time that starts the line is wall-clock
    time and is left out.) *)
Record Odometry := mkOdometry {
  o_power    : Q;
  o_velocity : Q;
  o_target   : Q;
  o_steps    : Z
}.

Section Controller.

Context {SL : Type} `{SlewLimiter SL}.

Record t := mk {
  last_error  : Q;              (* _last_error *)
  sum_errors  : Q;              (* _sum_errors *)
  step_limit  : Z;              (* _step_limit *)
  enable_slew : bool;           (* _enable_slew *)
  slewlimiter : SL;             (* _slewlimiter *)
  clip_max    : Q;              (* the clip_limit behind _clip *)
  enable_p    : bool;
  enable_i    : bool;
  enable_d    : bool;
  kp          : Q;
  ki          : Q;
  kd          : Q;
  filewriter  : bool;           (* whether a FileWriter is set *)
  stats_queue : list Odometry;  (* _stats_queue, latest first *)
  counter     : nat             (* next value of _counter *)
}.

(** The ros:motors:pid: section of the configuration. *)
Record Config := mkConfig {
  cfg_enable_slew : bool;
  cfg_clip_limit  : Q;
  cfg_enable_p    : bool;
  cfg_enable_i    : bool;
  cfg_enable_d    : bool;
  cfg_kp          : Q;
  cfg_ki          : Q;
  cfg_kd          : Q
}.

(** [PID.__init__]; [sl] is the limiter it builds when slewing is on. *)
Definition init (c : Config) (sl : SL) : t :=
  mk 0 0 0%Z (cfg_enable_slew c) sl (cfg_clip_limit c)
     (cfg_enable_p c) (cfg_enable_i c) (cfg_enable_d c)
     (cfg_kp c) (cfg_ki c) (cfg_kd c) false [] 0%nat.

Definition set_filewriter (fw : bool) (p : t) : t :=
  mk (last_error p) (sum_errors p) (step_limit p) (enable_slew p)
     (slewlimiter p) (clip_max p) (enable_p p) (enable_i p) (enable_d p)
     (kp p) (ki p) (kd p) fw (stats_queue p) (counter p).

Definition set_tuning (p_ i_ d_ : Q) (p : t) : t :=
  mk (last_error p) (sum_errors p) (step_limit p) (enable_slew p)
     (slewlimiter p) (clip_max p) (enable_p p) (enable_i p) (enable_d p)
     p_ i_ d_ (filewriter p) (stats_queue p) (counter p).

Definition with_step_limit (l : Z) (p : t) : t :=
  mk (last_error p) (sum_errors p) l (enable_slew p)
     (slewlimiter p) (clip_max p) (enable_p p) (enable_i p) (enable_d p)
     (kp p) (ki p) (kd p) (filewriter p) (stats_queue p) (counter p).

Definition with_slewlimiter (sl : SL) (p : t) : t :=
  mk (last_error p) (sum_errors p) (step_limit p) (enable_slew p)
     sl (clip_max p) (enable_p p) (enable_i p) (enable_d p)
     (kp p) (ki p) (kd p) (filewriter p) (stats_queue p) (counter p).

(** What one call of [_compute] writes: the two accumulators, the
    odometry queue and the loop counter. *)
Definition after_compute (le se : Q) (q : list Odometry) (p : t) : t :=
  mk le se (step_limit p) (enable_slew p)
     (slewlimiter p) (clip_max p) (enable_p p) (enable_i p) (enable_d p)
     (kp p) (ki p) (kd p) (filewriter p) q (S (counter p)).

(** [self._clip]. *)
Definition clip (p : t) (n : Q) : Q :=
  let clip_min := -1 * clip_max p in
  if Qle_bool n clip_min then clip_min
  else if Qgeb n (clip_max p) then clip_max p
  else n.

(** [PID.equals_zero(value)]. *)
Definition equals_zero (value : Q) : bool := isclose value 0 (2 # 100) 0.

(** [is_stepping(direction)]. *)
Definition is_stepping (direction : Direction) (p : t) (m : Motor.t) : bool :=
  match direction with
  | FORWARD => (Motor.get_steps m <? step_limit p)%Z
  | REVERSE => (Motor.get_steps m >? step_limit p)%Z
  end.

(** [set_step_limit(direction, steps)]. *)
Definition set_step_limit (direction : Direction) (steps : Z) (p : t) (m : Motor.t) : t :=
  match direction with
  | FORWARD => with_step_limit (Motor.get_steps m + steps) p
  | REVERSE => with_step_limit (Motor.get_steps m - steps) p
  end.

(** [_compute(target_velocity)]: the controller, the motor and the
    board after the call, and [_changed]. *)
Definition _compute (target_velocity : Q) (p : t) (m : Motor.t) (tb : ThunderBorg.t)
  : Result (bool * (t * Motor.t * ThunderBorg.t)) :=
  let current_velocity := Motor.get_velocity m in
  let error := target_velocity - current_velocity in
  let (level, tb) := Motor.get_current_power_level m tb in
  inv <- pydiv 1 (Motor.get_max_power_ratio m) ;;
  let current_power := level * inv in
  if equals_zero error then
    let '(m1, tb1) :=
      if Qeq_bool target_velocity 0
      then snd (Motor.set_motor_power 0 m tb)
      else (m, tb) in
    let q := if filewriter p
             then mkOdometry (current_power * 100) current_velocity
                             target_velocity (Motor.get_steps m1) :: stats_queue p
             else stats_queue p in
    Return (false, (after_compute 0 (sum_errors p) q p, m1, tb1))
  else
    let p_diff := if enable_p p then kp p * error else 0 in
    let i_diff := if enable_i p then ki p * sum_errors p else 0 in
    let d_diff := if enable_d p then kd p * last_error p else 0 in
    let output := p_diff + i_diff + d_diff in
    let clipped_output := clip p output in
    let power_level := current_power + clipped_output in
    let '(m1, tb1) := snd (Motor.set_motor_power power_level m tb) in
    let q := if filewriter p
             then mkOdometry (power_level * 100) current_velocity
                             target_velocity (Motor.get_steps m1) :: stats_queue p
             else stats_queue p in
    Return (true, (after_compute error (sum_errors p + error) q p, m1, tb1)).

(** What the rest of the system does to the motor while the loop is
    blocked in [rate.wait()]: the encoder callback moves the step count
    and the velocity, and another thread may call [interrupt()].
    [tick_enabled] is what [f_is_enabled()] answers at the loop test
    that opens the tick. *)
Record Tick := mkTick {
  tick_enabled   : bool;
  tick_steps     : Z;
  tick_velocity  : Q;
  tick_interrupt : bool
}.

Definition wait (tk : Tick) (m : Motor.t) : Motor.t :=
  Motor.mk (Motor.orientation m) (Motor.max_power_ratio m)
           (Motor.motor_power_limit m) (tick_steps tk) (tick_velocity tk)
           (Motor.max_power m) (Motor.max_driving_power m)
           (Motor.interrupted m || tick_interrupt tk).

(** Whether the loop of a run was left, or the script of ticks ended
    with the loop still going. *)
Inductive Run := Left | Going.

(** The [while f_is_enabled() and self.is_stepping(direction)] loop of
    [step_to] (the same text in both directions), one tick of the
    script per iteration. *)
Fixpoint loop (target_velocity : Q) (direction : Direction) (ticks : list Tick)
              (p : t) (m : Motor.t) (tb : ThunderBorg.t)
  : Result (Run * (t * Motor.t * ThunderBorg.t)) :=
  match ticks with
  | [] => Return (Going, (p, m, tb))
  | tk :: rest =>
      if tick_enabled tk && is_stepping direction p m then
        '(changed, (p1, m1, tb1)) <-
          (if enable_slew p then
             let (slewed_target_velocity, sl) :=
               slew (Motor.get_velocity m) target_velocity (slewlimiter p) in
             _compute slewed_target_velocity (with_slewlimiter sl p) m tb
           else _compute target_velocity p m tb) ;;
        if negb changed && Qeq_bool (Motor.get_velocity m1) 0
           && Qeq_bool target_velocity 0 && (step_limit p1 >? 0)%Z
        then Return (Left, (p1, m1, tb1))
        else
          let m2 := wait tk m1 in
          if Motor.is_interrupted m2 then Return (Left, (p1, m2, tb1))
          else loop target_velocity direction rest p1 m2 tb1
      else Return (Left, (p, m, tb))
  end.

(** [step_to(target_velocity, direction, slew_rate, f_is_enabled)]. *)
Definition step_to (target_velocity : Velocity.t) (direction : Direction)
                   (slew_rate : SlewRate.t) (ticks : list Tick)
                   (p : t) (m : Motor.t) (tb : ThunderBorg.t)
  : Result (Run * (t * Motor.t * ThunderBorg.t)) :=
  let _target_velocity := Velocity.value target_velocity in
  let p :=
    if enable_slew p && negb (is_enabled (slewlimiter p))
    then with_slewlimiter
           (start (enable (set_rate_limit slew_rate (slewlimiter p)))) p
    else p in
  let _target_velocity :=
    match direction with
    | FORWARD => _target_velocity
    | REVERSE => -1 * _target_velocity
    end in
  '(run, (p, m, tb)) <- loop _target_velocity direction ticks p m tb ;;
  match run with
  | Going => Return (Going, (p, m, tb))
  | Left =>
      let p := if enable_slew p
               then with_slewlimiter (reset 0 (slewlimiter p)) p
               else p in
      Return (Left, (p, Motor.reset_interrupt m, tb))
  end.

End Controller.

Arguments t SL : clear implicits.

End PID.

(** ** lib/enums.py: [Heading] *)
Module Heading.

Inductive t :=
| NORTH | NORTHWEST | WEST | SOUTHWEST | SOUTH | SOUTHEAST | EAST | NORTHEAST.

(** [Heading.get_heading_from_degrees(degrees)].  The third test reads
    [247.5 <- degrees <= 292.5], which Python parses as the chain
    [247.5 < (-degrees) <= 292.5].  A call that matches no test falls off
    the end of the function and returns [None]. *)
Definition get_heading_from_degrees (degrees : Q) : option t :=
  if Qgtb degrees (33725 # 100) || Qltb degrees (225 # 10) then Some NORTH
  else if Qle_bool (2925 # 10) degrees && Qle_bool degrees (33725 # 100)
  then Some NORTHWEST
  else if Qltb (2475 # 10) (- degrees) && Qle_bool (- degrees) (2925 # 10)
  then Some WEST
  else if Qle_bool (2025 # 10) degrees && Qle_bool degrees (2475 # 10)
  then Some SOUTHWEST
  else if Qle_bool (1575 # 10) degrees && Qle_bool degrees (2025 # 10)
  then Some SOUTH
  else if Qle_bool (1125 # 10) degrees && Qle_bool degrees (1575 # 10)
  then Some SOUTHEAST
  else if Qle_bool (675 # 10) degrees && Qle_bool degrees (1125 # 10)
  then Some EAST
  else if Qle_bool 0 degrees && Qle_bool degrees (675 # 10)
  then Some NORTHEAST
  else None.

End Heading.

(** ** lib/motor_v2.py: the encoder callback *)
Module Encoder.

(** A [Motor] with the fields its encoder callback uses besides those of
    [Motor.t] ([_orientation], [_steps] and [_velocity] are the motor's). *)
Record t := mk {
  motor                       : Motor.t;
  reverse_encoder_orientation : bool;  (* _reverse_encoder_orientation *)
  sample_rate                 : Z;     (* _sample_rate *)
  velocity_fudge_factor       : Q;     (* _velocity_fudge_factor *)
  steps_begin                 : Z;     (* _steps_begin *)
  max_velocity                : Q;     (* _max_velocity *)
  stepcount_timestamp         : Q      (* _stepcount_timestamp *)
}.

Definition with_steps (steps : Z) (m : Motor.t) : Motor.t :=
  Motor.mk (Motor.orientation m) (Motor.max_power_ratio m) (Motor.motor_power_limit m)
           steps (Motor.velocity m) (Motor.max_power m) (Motor.max_driving_power m)
           (Motor.interrupted m).

Definition with_velocity (velocity : Q) (m : Motor.t) : Motor.t :=
  Motor.mk (Motor.orientation m) (Motor.max_power_ratio m) (Motor.motor_power_limit m)
           (Motor.steps m) velocity (Motor.max_power m) (Motor.max_driving_power m)
           (Motor.interrupted m).

(** [Motor.__init__] for the encoder's fields: counters at zero; the
    sample rate and the fudge factor come from the configuration; [now] is
    the clock reading at construction. *)
Definition init (m : Motor.t) (reverse_encoder_orientation : bool)
                (sample_rate : Z) (velocity_fudge_factor now : Q) : t :=
  mk m reverse_encoder_orientation sample_rate velocity_fudge_factor 0%Z 0 now.

(** Python's [%] on integers: the remainder has the sign of the divisor,
    and a zero divisor raises. *)
Definition pymod (a b : Z) : Result Z :=
  if (b =? 0)%Z then Raise ZeroDivisionError else Return (a mod b)%Z.

(** [callback_step_count(pulse)].  [now] is what [time.time()] reads in
    the velocity expression, [later] what it reads when the timestamp is
    stored for the last time (the store inside the inner [if] is
    overwritten by the one that follows it). *)
Definition callback_step_count (pulse : Z) (now later : Q) (e : t) : Result t :=
  let m := motor e in
  let steps :=
    if negb (reverse_encoder_orientation e) then
      match Motor.orientation m with
      | PORT => (Motor.steps m + pulse)%Z
      | _ => (Motor.steps m - pulse)%Z
      end
    else
      match Motor.orientation m with
      | PORT => (Motor.steps m - pulse)%Z
      | _ => (Motor.steps m + pulse)%Z
      end in
  let m := with_steps steps m in
  r <- pymod steps (sample_rate e) ;;
  if (r =? 0)%Z then
    if negb (steps_begin e =? 0)%Z then
      a <- pydiv (inject_Z (steps - steps_begin e)) (now - stepcount_timestamp e) ;;
      velocity <- pydiv a (velocity_fudge_factor e) ;;
      Return (mk (with_velocity velocity m) (reverse_encoder_orientation e)
                 (sample_rate e) (velocity_fudge_factor e) steps
                 (pymax velocity (max_velocity e)) later)
    else
      Return (mk m (reverse_encoder_orientation e) (sample_rate e)
                 (velocity_fudge_factor e) steps (max_velocity e) later)
  else
    Return (mk m (reverse_encoder_orientation e) (sample_rate e)
               (velocity_fudge_factor e) (steps_begin e) (max_velocity e)
               (stepcount_timestamp e)).

(** The callback over a sequence of pulses, each with its two clock
    readings; the first exception ends the sequence. *)
Fixpoint pulses (ps : list (Z * Q * Q)) (e : t) : Result t :=
  match ps with
  | [] => Return e
  | (pulse, now, later) :: rest =>
      e' <- callback_step_count pulse now later e ;;
      pulses rest e'
  end.

End Encoder.

(** * Notions used in the statements *)

(** [v] is the nearest named setpoint strictly below [x]: its value is
    below [x], and no setpoint below [x] has a greater value. *)
Definition nearest_below (x : Q) (v : Velocity.t) : Prop :=
  Velocity.value v < x
  /\ forall w : Velocity.t, Velocity.value w < x -> Velocity.value w <= Velocity.value v.

(** The inputs at which a branch of [get_slower_than] begins: the values
    of DEAD_SLOW, SLOW, HALF, TWO_THIRDS, THREE_QUARTER and FULL. *)
Definition at_threshold (x : Q) : Prop :=
  x == 20 \/ x == 30 \/ x == 50 \/ x == 667 # 10 \/ x == 75 \/ x == 90.

(** [a] and [b] have opposite signs. *)
Definition opposite_signs (a b : Q) : Prop :=
  (0 < a /\ b < 0) \/ (a < 0 /\ 0 < b).

(** The power on the motor's output is the driving power of a power level
    within the motor's limit: the invariant [|current_power| <= power_limit],
    read on the board. *)
Definition power_within_limit (m : Motor.t) (tb : ThunderBorg.t) : Prop :=
  exists level : Q,
    Qabs level <= Motor.motor_power_limit m
    /\ hd 0 (Motor.sent m tb) == level * Motor.max_power_ratio m.

(** A PORT motor, wired the right way round, with a power ratio of 1. *)
Definition port_motor : Motor.t :=
  Motor.set_max_power_ratio 1 (Motor.init false PORT).

(** A board that was commanded nothing yet and reports [readings] on
    output 1. *)
Definition board (readings : list (option Q)) : ThunderBorg.t :=
  ThunderBorg.fresh readings [].

(** The answers the board will give to this motor's next reads. *)
Definition replies (m : Motor.t) (tb : ThunderBorg.t) : list (option Q) :=
  match Motor.orientation m with
  | PORT => ThunderBorg.replies1 tb
  | _ => ThunderBorg.replies2 tb
  end.



(** A controller without slewing: P, I and D enabled with gains 0.001,
    output clipped to [-1, 1]. *)
Definition plain_pid : PID.t unit :=
  PID.init (PID.mkConfig false 1 true true true (1 # 1000) (1 # 1000) (1 # 1000)) tt.







(** The highest magnitude among the powers of a list (0.0 when empty). *)
Definition peak (powers : list Q) : Q :=
  fold_right (fun d acc => pymax (Qabs d) acc) 0 powers.

(** The compass bearing of a heading, in degrees. *)
Definition bearing (h : Heading.t) : Q :=
  match h with
  | Heading.NORTH => 0
  | Heading.NORTHEAST => 45
  | Heading.EAST => 90
  | Heading.SOUTHEAST => 135
  | Heading.SOUTH => 180
  | Heading.SOUTHWEST => 225
  | Heading.WEST => 270
  | Heading.NORTHWEST => 315
  end.

(** The powers commanded so far on the output of the other motor. *)
Definition sent_elsewhere (m : Motor.t) (tb : ThunderBorg.t) : list Q :=
  match Motor.orientation m with
  | PORT => ThunderBorg.sent2 tb
  | _ => ThunderBorg.sent1 tb
  end.

(** The direction in which a pulse moves the step count: +1 for a PORT
    motor whose encoder is not reversed and for another motor whose encoder
    is reversed, -1 otherwise. *)
Definition count_sign (e : Encoder.t) : Z :=
  match Motor.orientation (Encoder.motor e), Encoder.reverse_encoder_orientation e with
  | PORT, false => 1
  | PORT, true => -1
  | _, false => -1
  | _, true => 1
  end.

(** The sum of the pulses of a sequence. *)
Definition pulse_sum (ps : list (Z * Q * Q)) : Z :=
  fold_right (fun p acc => (fst (fst p) + acc)%Z) 0%Z ps.

(** The encoder of a freshly built PORT motor, as wired, sampling every
    [rate] pulses with a fudge factor of 14, built at time 0. *)
Definition fresh_encoder (rate : Z) : Encoder.t :=
  Encoder.init (Motor.init false PORT) false rate 14 0.

(** [n] forward pulses, one per second from second 1. *)
Definition steady_pulses (n : nat) : list (Z * Q * Q) :=
  map (fun i => (1%Z, inject_Z (Z.of_nat i), inject_Z (Z.of_nat i))) (seq 1 n).

(** A tick during which nothing happens to motor [m]: the run stays
    enabled, the wheel does not move, and nobody interrupts. *)
Definition idle_tick (m : Motor.t) (tk : PID.Tick) : Prop :=
  PID.tick_enabled tk = true
  /\ PID.tick_steps tk = Motor.steps m
  /\ PID.tick_velocity tk == 0
  /\ PID.tick_interrupt tk = false.

(** A controller with only the proportional term enabled, gain 0.001,
    output clipped to [-1, 1], no slewing. *)
Definition p_only_pid : PID.t unit :=
  PID.init (PID.mkConfig false 1 true false false (1 # 1000) (1 # 1000) (1 # 1000)) tt.

(** * Properties *)

(** ** Comparisons *)

Lemma Qltb_lt (x y : Q) : Qltb x y = true <-> x < y.
Proof.
  unfold Qltb. rewrite negb_true_iff, <- not_true_iff_false, Qle_bool_iff.
  split; [apply Qnot_le_lt | apply Qlt_not_le].
Qed.

Lemma Qltb_ge (x y : Q) : Qltb x y = false <-> y <= x.
Proof.
  unfold Qltb. now rewrite negb_false_iff, Qle_bool_iff.
Qed.

Lemma Qgtb_gt (x y : Q) : Qgtb x y = true <-> y < x.
Proof. apply Qltb_lt. Qed.

Lemma Qgtb_le (x y : Q) : Qgtb x y = false <-> x <= y.
Proof. apply Qltb_ge. Qed.

Lemma Qgeb_ge (x y : Q) : Qgeb x y = true <-> y <= x.
Proof. apply Qle_bool_iff. Qed.

Lemma Qle_bool_gt (x y : Q) : Qle_bool x y = false <-> y < x.
Proof.
  rewrite <- not_true_iff_false, Qle_bool_iff.
  split; [apply Qnot_le_lt | apply Qlt_not_le].
Qed.

(** Turns the boolean tests of the code, in the goal and in the
    hypotheses, into order statements on [Q]. *)
Ltac order_of_tests :=
  repeat match goal with
  | H : Qltb _ _ = true |- _ => apply Qltb_lt in H
  | H : Qltb _ _ = false |- _ => apply Qltb_ge in H
  | H : Qgtb _ _ = true |- _ => apply Qgtb_gt in H
  | H : Qgtb _ _ = false |- _ => apply Qgtb_le in H
  | H : Qgeb _ _ = true |- _ => apply Qgeb_ge in H
  | H : Qle_bool _ _ = true |- _ => apply Qle_bool_iff in H
  | H : Qle_bool _ _ = false |- _ => apply Qle_bool_gt in H
  | H : Qeq_bool _ _ = true |- _ => apply Qeq_bool_iff in H
  | H : Qeq_bool _ _ = false |- _ => apply Qeq_bool_neq in H
  end.

Lemma pymax_ge_l (a b : Q) : a <= pymax a b.
Proof.
  unfold pymax. destruct (Qltb a b) eqn:E; order_of_tests; lra.
Qed.

Lemma pymax_ge_r (a b : Q) : b <= pymax a b.
Proof.
  unfold pymax. destruct (Qltb a b) eqn:E; order_of_tests; lra.
Qed.

Lemma pymax_cases (a b : Q) : pymax a b = a \/ pymax a b = b.
Proof. unfold pymax. destruct (Qltb a b); auto. Qed.

(** ** [PID.equals_zero] *)

Lemma isclose_zero (x rtol : Q) : isclose x 0 rtol 0 = true <-> x == 0.
Proof.
  unfold isclose. rewrite Qle_bool_iff.
  assert (E : 0 + rtol * Qabs 0 == 0) by (simpl; ring).
  rewrite E. split; intros Hx.
  - apply Qabs_Qle_condition in Hx. lra.
  - apply Qabs_Qle_condition. lra.
Qed.

(** C1, as the specification states it, fails: 0.001 is not within a
    relative tolerance of 0.0, however large the percentage, because the
    tolerance is relative to the reference 0.0 and the absolute tolerance
    is 0; [equals_zero(0.001)] is false. *)
Lemma equals_zero_rejects_0_001 : PID.equals_zero (1 # 1000) = false.
Proof. reflexivity. Qed.

(** C1 (amended): [equals_zero(x)] is true iff
    [|x - 0.0| <= 0.0 + 0.02 * |0.0|], that is iff [x] is zero; so
    [equals_zero(0.0)] is true while [equals_zero(0.001)] and
    [equals_zero(5.0)] are false. *)
Theorem equals_zero_iff_zero :
  (forall x : Q,
      (PID.equals_zero x = true <-> Qabs (x - 0) <= 0 + (2 # 100) * Qabs 0)
      /\ (PID.equals_zero x = true <-> x == 0))
  /\ PID.equals_zero 0 = true
  /\ PID.equals_zero (1 # 1000) = false
  /\ PID.equals_zero 5 = false.
Proof.
  split; [intro x; split | repeat split].
  - unfold PID.equals_zero, isclose. apply Qle_bool_iff.
  - apply isclose_zero.
Qed.

(** ** [Velocity.get_slower_than] *)

(** C7, as the specification states it, fails at both ends of a branch:
    at 0 no setpoint lies strictly below the input and STOP is returned;
    at 30 the setpoint returned is SLOW, whose value is the input itself. *)
Lemma get_slower_than_not_strictly_below :
  Velocity.get_slower_than 0 = Velocity.STOP
  /\ ~ nearest_below 0 (Velocity.get_slower_than 0)
  /\ Velocity.get_slower_than 30 = Velocity.SLOW
  /\ ~ nearest_below 30 (Velocity.get_slower_than 30).
Proof.
  repeat split; try reflexivity; intros [H _]; vm_compute in H; discriminate.
Qed.

(** C7 (amended): for every input in 0-100 that is neither 0 nor one of
    the thresholds 20, 30, 50, 66.7, 75, 90, [get_slower_than] returns the
    nearest named setpoint strictly below the input; for every input from
    0 up to 20 (20 excluded) it returns STOP; [get_slower_than(45.0)] is
    SLOW and [get_slower_than(10.0)] is STOP. *)
Theorem get_slower_than_nearest_below (x : Q) :
  0 <= x <= 100 ->
  (0 < x -> ~ at_threshold x -> nearest_below x (Velocity.get_slower_than x))
  /\ (x < 20 -> Velocity.get_slower_than x = Velocity.STOP)
  /\ Velocity.get_slower_than 45 = Velocity.SLOW
  /\ Velocity.get_slower_than 10 = Velocity.STOP.
Proof.
  intros [Hlo Hhi]. split; [| split; [| split; reflexivity]].
  - intros Hpos Hthr. unfold at_threshold in Hthr.
    unfold Velocity.get_slower_than, nearest_below.
    repeat match goal with
    | |- context [Qltb x ?v] => destruct (Qltb x v) eqn:?
    end; order_of_tests; simpl Velocity.value in *;
    (split; [ simpl; lra | intros w Hw; destruct w; simpl in *; lra ]).
  - intros Hx. unfold Velocity.get_slower_than.
    apply Qltb_lt in Hx. simpl Velocity.value. now rewrite Hx.
Qed.

Lemma get_slower_than_nearest_below_at_45 :
  0 <= 45 <= 100
  /\ nearest_below 45 (Velocity.get_slower_than 45)
  /\ Velocity.get_slower_than 45 = Velocity.SLOW.
Proof.
  assert (B : 0 <= 45 <= 100) by (split; discriminate).
  split; [exact B |].
  destruct (get_slower_than_nearest_below 45 B) as (Hn & _ & Hs & _).
  split; [| exact Hs].
  apply Hn; [reflexivity |].
  unfold at_threshold.
  intros [H | [H | [H | [H | [H | H]]]]]; discriminate H.
Defined.

(** ** Reading the board *)

Lemma Qabs_gt_cases (l x : Q) : l < Qabs x -> l < x \/ x < - l.
Proof.
  intros H. destruct (Qlt_le_dec x 0) as [Hx | Hx].
  - right. rewrite (Qabs_neg x) in H by lra. lra.
  - left. rewrite (Qabs_pos x) in H by lra. lra.
Qed.

Lemma GetMotor_sent (m : Motor.t) (tb : ThunderBorg.t) :
  ThunderBorg.sent1 (snd (Motor.GetMotor m tb)) = ThunderBorg.sent1 tb
  /\ ThunderBorg.sent2 (snd (Motor.GetMotor m tb)) = ThunderBorg.sent2 tb.
Proof.
  unfold Motor.GetMotor, ThunderBorg.GetMotor1, ThunderBorg.GetMotor2.
  destruct (Motor.orientation m);
    [destruct (ThunderBorg.replies1 tb) | destruct (ThunderBorg.replies2 tb) ..];
    simpl; auto.
Qed.

Lemma poll_sent (m : Motor.t) (n : nat) (tb : ThunderBorg.t) :
  ThunderBorg.sent1 (snd (Motor.poll m n tb)) = ThunderBorg.sent1 tb
  /\ ThunderBorg.sent2 (snd (Motor.poll m n tb)) = ThunderBorg.sent2 tb.
Proof.
  revert tb. induction n as [| n IH]; intros tb; simpl; [auto |].
  pose proof (GetMotor_sent m tb) as [H1 H2].
  destruct (Motor.GetMotor m tb) as [[v |] tb']; simpl in *; [auto |].
  destruct (IH tb') as [I1 I2]. rewrite I1, I2. auto.
Qed.

(** Reading the current power commands nothing. *)
Lemma get_current_power_level_sent (m : Motor.t) (tb : ThunderBorg.t) :
  ThunderBorg.sent1 (snd (Motor.get_current_power_level m tb)) = ThunderBorg.sent1 tb
  /\ ThunderBorg.sent2 (snd (Motor.get_current_power_level m tb)) = ThunderBorg.sent2 tb.
Proof.
  unfold Motor.get_current_power_level.
  pose proof (poll_sent m 20 tb) as H.
  destruct (Motor.poll m 20 tb) as [[v |] tb']; exact H.
Qed.

Lemma get_current_power_level_own_sent (m : Motor.t) (tb : ThunderBorg.t) :
  Motor.sent m (snd (Motor.get_current_power_level m tb)) = Motor.sent m tb.
Proof.
  destruct (get_current_power_level_sent m tb) as [H1 H2].
  unfold Motor.sent. destruct (Motor.orientation m); assumption.
Qed.

Lemma sent_orientation (m m' : Motor.t) (tb : ThunderBorg.t) :
  Motor.orientation m' = Motor.orientation m -> Motor.sent m' tb = Motor.sent m tb.
Proof. unfold Motor.sent. now intros ->. Qed.

Lemma sent_SetMotor (m : Motor.t) (d : Q) (tb : ThunderBorg.t) :
  Motor.sent m (Motor.SetMotor m d tb) = d :: Motor.sent m tb.
Proof.
  unfold Motor.sent, Motor.SetMotor. destruct (Motor.orientation m); reflexivity.
Qed.

(** ** [Motor.set_motor_power] *)

(** The cases of [set_motor_power], each with the tests that lead to it. *)
Lemma set_motor_power_cases (p : Q) (m : Motor.t) (tb : ThunderBorg.t) :
  let cur := fst (Motor.get_current_power_level m tb) in
  let tb1 := snd (Motor.get_current_power_level m tb) in
  let d := p * Motor.max_power_ratio m in
  (Motor.motor_power_limit m < p
   /\ Motor.set_motor_power p m tb = (Motor.TooHigh, (m, tb)))
  \/ (p < -1 * Motor.motor_power_limit m
      /\ Motor.set_motor_power p m tb = (Motor.TooLow, (m, tb)))
  \/ (-1 * Motor.motor_power_limit m <= p <= Motor.motor_power_limit m
      /\ 3 # 10 < Qabs (cur - p) /\ 0 < cur /\ p < 0
      /\ Motor.set_motor_power p m tb = (Motor.PosNegJump, (m, tb1)))
  \/ (-1 * Motor.motor_power_limit m <= p <= Motor.motor_power_limit m
      /\ 3 # 10 < Qabs (cur - p) /\ cur < 0 /\ 0 < p
      /\ Motor.set_motor_power p m tb = (Motor.NegPosJump, (m, tb1)))
  \/ (-1 * Motor.motor_power_limit m <= p <= Motor.motor_power_limit m
      /\ ~ (3 # 10 < Qabs (cur - p) /\ opposite_signs cur p)
      /\ Motor.set_motor_power p m tb =
         (Motor.Commanded d,
          (Motor.mk (Motor.orientation m) (Motor.max_power_ratio m)
                    (Motor.motor_power_limit m) (Motor.steps m) (Motor.velocity m)
                    (pymax p (Motor.max_power m))
                    (pymax (Qabs d) (Motor.max_driving_power m))
                    (Motor.interrupted m),
           Motor.SetMotor m d tb1))).
Proof.
  intros cur tb1 d. subst cur tb1 d. unfold Motor.set_motor_power, opposite_signs.
  destruct (Qgtb p (Motor.motor_power_limit m)) eqn:Ehi;
    [left; order_of_tests; auto |].
  destruct (Qltb p (-1 * Motor.motor_power_limit m)) eqn:Elo;
    [right; left; order_of_tests; auto |].
  destruct (Motor.get_current_power_level m tb) as [cur tb1]; simpl fst; simpl snd.
  destruct (Qgtb (Qabs (cur - p)) (3 # 10)) eqn:Ej;
  destruct (Qgtb cur 0) eqn:Ecp; destruct (Qltb p 0) eqn:Epn;
  destruct (Qltb cur 0) eqn:Ecn; destruct (Qgtb p 0) eqn:Epp;
  cbn [andb]; order_of_tests;
  first
    [ (right; right; left; repeat split; (assumption || reflexivity))
    | (right; right; right; left; repeat split; (assumption || reflexivity))
    | (right; right; right; right; split; [split; assumption |];
       split; [| reflexivity]; intros [Hj [[Ha Hb] | [Ha Hb]]]; lra)
    | (exfalso; lra) ].
Qed.

Lemma set_motor_power_keeps_configuration (p : Q) (m : Motor.t) (tb : ThunderBorg.t) :
  let m' := fst (snd (Motor.set_motor_power p m tb)) in
  Motor.orientation m' = Motor.orientation m
  /\ Motor.max_power_ratio m' = Motor.max_power_ratio m
  /\ Motor.motor_power_limit m' = Motor.motor_power_limit m
  /\ Motor.steps m' = Motor.steps m
  /\ Motor.velocity m' = Motor.velocity m
  /\ Motor.interrupted m' = Motor.interrupted m.
Proof.
  destruct (set_motor_power_cases p m tb)
    as [[_ E] | [[_ E] | [(_ & _ & _ & _ & E) | [(_ & _ & _ & _ & E) | (_ & _ & E)]]]];
    rewrite E; simpl; auto 6.
Qed.

(** C2: a requested power whose sign is opposite to the power the driver
    reports, and which differs from it by more than 0.3, is rejected:
    [set_motor_power] logs an error, leaves the motor as it was and
    commands nothing on either output. *)
Theorem set_motor_power_rejects_reversal
        (m : Motor.t) (tb : ThunderBorg.t) (power_level : Q) :
  opposite_signs (fst (Motor.get_current_power_level m tb)) power_level ->
  3 # 10 < Qabs (fst (Motor.get_current_power_level m tb) - power_level) ->
  Motor.rejected (fst (Motor.set_motor_power power_level m tb)) = true
  /\ fst (snd (Motor.set_motor_power power_level m tb)) = m
  /\ ThunderBorg.sent1 (snd (snd (Motor.set_motor_power power_level m tb)))
     = ThunderBorg.sent1 tb
  /\ ThunderBorg.sent2 (snd (snd (Motor.set_motor_power power_level m tb)))
     = ThunderBorg.sent2 tb.
Proof.
  intros Hsign Hjump.
  pose proof (get_current_power_level_sent m tb) as [S1 S2].
  destruct (set_motor_power_cases power_level m tb)
    as [[_ E] | [[_ E] | [(_ & _ & _ & _ & E) | [(_ & _ & _ & _ & E) | (_ & N & _)]]]];
    try (rewrite E; simpl; auto).
  exfalso. apply N. split; assumption.
Qed.

(** The example of C2: the driver reports +0.5 and -0.2 is requested. *)
Lemma set_motor_power_rejects_reversal_example :
  Motor.set_motor_power (- (2 # 10)) port_motor (board [Some (5 # 10)])
  = (Motor.PosNegJump, (port_motor, board []))
  /\ Motor.rejected
       (fst (Motor.set_motor_power (- (2 # 10)) port_motor (board [Some (5 # 10)])))
     = true
  /\ fst (snd (Motor.set_motor_power (- (2 # 10)) port_motor (board [Some (5 # 10)])))
     = port_motor
  /\ ThunderBorg.sent1
       (snd (snd (Motor.set_motor_power (- (2 # 10)) port_motor (board [Some (5 # 10)]))))
     = []
  /\ ThunderBorg.sent2
       (snd (snd (Motor.set_motor_power (- (2 # 10)) port_motor (board [Some (5 # 10)]))))
     = [].
Proof.
  split; [reflexivity |].
  apply (set_motor_power_rejects_reversal port_motor (board [Some (5 # 10)]) (- (2 # 10))).
  - left. split; reflexivity.
  - reflexivity.
Defined.

(** C3: a power level whose magnitude exceeds the limit is rejected, and
    nothing at all changes: the motor (trackers included) and the board
    are as before, nothing is commanded and no clamped value is sent.  A
    call that does command the board was given a level within the limit and
    sends its driving power unclamped.  Hence every call preserves the
    invariant that the output's power is that of a level within the limit. *)
Theorem set_motor_power_enforces_limit
        (m : Motor.t) (tb : ThunderBorg.t) (power_level : Q) :
  (Motor.motor_power_limit m < Qabs power_level ->
   Motor.rejected (fst (Motor.set_motor_power power_level m tb)) = true
   /\ snd (Motor.set_motor_power power_level m tb) = (m, tb))
  /\ (forall d : Q,
        fst (Motor.set_motor_power power_level m tb) = Motor.Commanded d ->
        Qabs power_level <= Motor.motor_power_limit m
        /\ d = power_level * Motor.max_power_ratio m
        /\ Motor.sent m (snd (snd (Motor.set_motor_power power_level m tb)))
           = d :: Motor.sent m tb)
  /\ (power_within_limit m tb ->
      power_within_limit (fst (snd (Motor.set_motor_power power_level m tb)))
                         (snd (snd (Motor.set_motor_power power_level m tb)))).
Proof.
  pose proof (get_current_power_level_own_sent m tb) as Hs.
  destruct (set_motor_power_cases power_level m tb)
    as [[L E] | [[L E] | [(B & _ & _ & _ & E) | [(B & _ & _ & _ & E) | (B & _ & E)]]]];
    rewrite E; cbn [fst snd Motor.rejected]; (split; [| split]).
  all: try (intros _; split; reflexivity).
  all: try (intros d Hd; discriminate Hd).
  all: try (intros Hinv; exact Hinv).
  all: try (intros Hinv; unfold power_within_limit in *; now rewrite Hs).
  all: try (intros Habs; exfalso; apply Qabs_gt_cases in Habs; lra).
  - intros d Hd. injection Hd as <-. split; [| split].
    + apply Qabs_Qle_condition. clear - B. lra.
    + reflexivity.
    + now rewrite sent_SetMotor, Hs.
  - intros _. exists power_level.
    cbn [Motor.motor_power_limit Motor.max_power_ratio]. split.
    + apply Qabs_Qle_condition. clear - B. lra.
    + change (hd 0 (Motor.sent m
                (Motor.SetMotor m (power_level * Motor.max_power_ratio m)
                   (snd (Motor.get_current_power_level m tb))))
              == power_level * Motor.max_power_ratio m).
      rewrite sent_SetMotor. reflexivity.
Qed.

(** Instances of C3: 1.5 is refused with the motor and the board untouched;
    the invariant holds on a fresh board and after commanding 0.5. *)
Lemma set_motor_power_enforces_limit_example :
  (Motor.rejected (fst (Motor.set_motor_power (3 # 2) port_motor (board [Some 0]))) = true
   /\ snd (Motor.set_motor_power (3 # 2) port_motor (board [Some 0]))
      = (port_motor, board [Some 0]))
  /\ power_within_limit
       (fst (snd (Motor.set_motor_power (1 # 2) port_motor (board [Some 0]))))
       (snd (snd (Motor.set_motor_power (1 # 2) port_motor (board [Some 0])))).
Proof.
  split.
  - destruct (set_motor_power_enforces_limit port_motor (board [Some 0]) (3 # 2))
      as (Hreject & _ & _).
    apply Hreject. reflexivity.
  - destruct (set_motor_power_enforces_limit port_motor (board [Some 0]) (1 # 2))
      as (_ & _ & Hinv).
    apply Hinv. exists 0. split; [discriminate | reflexivity].
Defined.

(** ** The power trackers *)

(** Neither tracker ever decreases. *)
Lemma set_motor_power_trackers_monotone (p : Q) (m : Motor.t) (tb : ThunderBorg.t) :
  Motor.max_power m <= Motor.max_power (fst (snd (Motor.set_motor_power p m tb)))
  /\ Motor.max_driving_power m
     <= Motor.max_driving_power (fst (snd (Motor.set_motor_power p m tb))).
Proof.
  destruct (set_motor_power_cases p m tb)
    as [[_ E] | [[_ E] | [(_ & _ & _ & _ & E) | [(_ & _ & _ & _ & E) | (_ & _ & E)]]]];
    rewrite E; cbn [fst snd Motor.max_power Motor.max_driving_power];
    split; try apply Qle_refl; apply pymax_ge_r.
Qed.

(** An accepted command raises [_max_driving_power] to the magnitude of
    the driving power, and [_max_power] to the signed power level. *)
Lemma set_motor_power_trackers (p d : Q) (m : Motor.t) (tb : ThunderBorg.t) :
  fst (Motor.set_motor_power p m tb) = Motor.Commanded d ->
  Motor.max_driving_power (fst (snd (Motor.set_motor_power p m tb)))
  = pymax (Qabs d) (Motor.max_driving_power m)
  /\ Motor.max_power (fst (snd (Motor.set_motor_power p m tb)))
     = pymax p (Motor.max_power m).
Proof.
  destruct (set_motor_power_cases p m tb)
    as [[_ E] | [[_ E] | [(_ & _ & _ & _ & E) | [(_ & _ & _ & _ & E) | (_ & _ & E)]]]];
    rewrite E; cbn [fst snd Motor.max_power Motor.max_driving_power];
    intros Hd; try discriminate Hd.
  injection Hd as <-. split; reflexivity.
Qed.

(** X17: when [_max_driving_power] is the highest magnitude among the
    powers commanded so far on the motor's output (as on a fresh motor and
    board), it still is after [set_motor_power], accepted or not. *)
Lemma set_motor_power_tracks_driving_power (p : Q) (m : Motor.t) (tb : ThunderBorg.t) :
  Motor.max_driving_power m = peak (Motor.sent m tb) ->
  Motor.max_driving_power (fst (snd (Motor.set_motor_power p m tb)))
  = peak (Motor.sent m (snd (snd (Motor.set_motor_power p m tb)))).
Proof.
  intros Hinv.
  pose proof (get_current_power_level_own_sent m tb) as Hs.
  destruct (set_motor_power_cases p m tb)
    as [[_ E] | [[_ E] | [(_ & _ & _ & _ & E) | [(_ & _ & _ & _ & E) | (_ & _ & E)]]]];
    rewrite E; cbn [fst snd Motor.max_driving_power]; rewrite ?Hs; try assumption.
  rewrite sent_SetMotor, Hs. cbn [peak fold_right]. fold (peak (Motor.sent m tb)).
  now rewrite Hinv.
Qed.

(** C5, where the code departs from it: a fresh motor is commanded the
    power level -0.5 (astern).  The command is accepted and sent;
    [_max_driving_power] records the magnitude 0.5, but [_max_power], which
    takes the maximum of the signed level, stays at 0.0. *)
Lemma max_power_misses_astern_magnitude :
  fst (Motor.set_motor_power (- (1 # 2)) port_motor (board [Some 0]))
  = Motor.Commanded (- (1 # 2))
  /\ Motor.sent port_motor
       (snd (snd (Motor.set_motor_power (- (1 # 2)) port_motor (board [Some 0]))))
     = [- (1 # 2)]
  /\ Motor.max_driving_power
       (fst (snd (Motor.set_motor_power (- (1 # 2)) port_motor (board [Some 0]))))
     = 1 # 2
  /\ Motor.max_power
       (fst (snd (Motor.set_motor_power (- (1 # 2)) port_motor (board [Some 0]))))
     = 0
  /\ ~ Motor.max_power
         (fst (snd (Motor.set_motor_power (- (1 # 2)) port_motor (board [Some 0]))))
       == Qabs (- (1 # 2)).
Proof.
  repeat split; try reflexivity. intros H. discriminate H.
Qed.

(** ** [Motor.is_in_motion] *)

(** C9: [is_in_motion] answers true exactly when the power level the
    driver reports is strictly positive; when the reported level is
    negative (the motor is driven astern) it answers false. *)
Theorem is_in_motion_iff_positive_power (m : Motor.t) (tb : ThunderBorg.t) :
  (fst (Motor.is_in_motion m tb) = true
   <-> 0 < fst (Motor.get_current_power_level m tb))
  /\ (fst (Motor.get_current_power_level m tb) < 0 ->
      fst (Motor.is_in_motion m tb) = false).
Proof.
  unfold Motor.is_in_motion.
  destruct (Motor.get_current_power_level m tb) as [level tb']. cbn [fst].
  split.
  - apply Qgtb_gt.
  - intros Hneg. apply Qgtb_le. lra.
Qed.

(** An instance of C9: the driver reports -0.5. *)
Lemma is_in_motion_astern_example :
  fst (Motor.get_current_power_level port_motor (board [Some (- (1 # 2))])) = - (1 # 2)
  /\ fst (Motor.is_in_motion port_motor (board [Some (- (1 # 2))])) = false.
Proof.
  split; [reflexivity |].
  destruct (is_in_motion_iff_positive_power port_motor (board [Some (- (1 # 2))]))
    as [_ Hastern].
  apply Hastern. reflexivity.
Defined.

(** ** [Motor.get_current_power_level] and [Motor.accelerate] *)

Lemma GetMotor_replies (m : Motor.t) (tb : ThunderBorg.t) (r : option Q)
      (rest : list (option Q)) :
  replies m tb = r :: rest ->
  fst (Motor.GetMotor m tb) = r /\ replies m (snd (Motor.GetMotor m tb)) = rest.
Proof.
  unfold replies, Motor.GetMotor, ThunderBorg.GetMotor1, ThunderBorg.GetMotor2.
  destruct (Motor.orientation m); intros ->; simpl; auto.
Qed.

(** [n] failed reads in a row: the loop gives up after reading exactly
    those [n] answers. *)
Lemma poll_gives_up (m : Motor.t) (n : nat) (tb : ThunderBorg.t)
      (rest : list (option Q)) :
  replies m tb = repeat None n ++ rest ->
  fst (Motor.poll m n tb) = None /\ replies m (snd (Motor.poll m n tb)) = rest.
Proof.
  revert tb. induction n as [| n IH]; intros tb Hr; simpl in *; [auto |].
  destruct (GetMotor_replies m tb None _ Hr) as [Hv Hrest].
  destruct (Motor.GetMotor m tb) as [v tb']. simpl in Hv, Hrest. subst v.
  apply IH, Hrest.
Qed.

(** A reading after [k] failed reads, [k] below the bound: the loop stops
    at the reading. *)
Lemma poll_reads (m : Motor.t) (n k : nat) (tb : ThunderBorg.t) (value : Q)
      (rest : list (option Q)) :
  (k < n)%nat ->
  replies m tb = repeat None k ++ Some value :: rest ->
  fst (Motor.poll m n tb) = Some value
  /\ replies m (snd (Motor.poll m n tb)) = rest.
Proof.
  revert k tb. induction n as [| n IH]; intros k tb Hk Hr; [lia |].
  destruct k as [| k]; simpl in *.
  - destruct (GetMotor_replies m tb _ _ Hr) as [Hv Hrest].
    destruct (Motor.GetMotor m tb) as [v tb']. simpl in Hv, Hrest. subst v.
    auto.
  - destruct (GetMotor_replies m tb _ _ Hr) as [Hv Hrest].
    destruct (Motor.GetMotor m tb) as [v tb']. simpl in Hv, Hrest. subst v.
    apply (IH k); [lia | exact Hrest].
Qed.

(** The retry bound of [get_current_power_level]: a reading that comes
    within the first 20 attempts is returned as it is; after 20 failed
    attempts the answer is 0.0 and no further read is made. *)
Lemma get_current_power_level_retries (m : Motor.t) (tb : ThunderBorg.t) :
  (forall rest,
      replies m tb = repeat None 20 ++ rest ->
      fst (Motor.get_current_power_level m tb) = 0
      /\ replies m (snd (Motor.get_current_power_level m tb)) = rest)
  /\ (forall k value rest,
         (k < 20)%nat ->
         replies m tb = repeat None k ++ Some value :: rest ->
         fst (Motor.get_current_power_level m tb) = value
         /\ replies m (snd (Motor.get_current_power_level m tb)) = rest).
Proof.
  unfold Motor.get_current_power_level. split.
  - intros rest Hr. destruct (poll_gives_up m 20 tb rest Hr) as [Hv Hrest].
    destruct (Motor.poll m 20 tb) as [[v |] tb']; simpl in *;
      [discriminate | auto].
  - intros k value rest Hk Hr.
    destruct (poll_reads m 20 k tb value rest Hk Hr) as [Hv Hrest].
    destruct (Motor.poll m 20 tb) as [[v |] tb']; simpl in *;
      [injection Hv as ->; auto | discriminate].
Qed.

(** [accelerate] never raises its [RuntimeError]: the test that guards it
    looks at a value that is always a number. *)
Lemma accelerate_never_RuntimeError
      (speed : Q) (slew_rate : SlewRate.t) (steps : Z) (intr : list bool)
      (m : Motor.t) (tb : ThunderBorg.t) :
  Motor.accelerate speed slew_rate steps intr m tb <> Raise RuntimeError.
Proof.
  unfold Motor.accelerate, pydiv, bind, is_None.
  destruct (Motor.get_current_power_level _ tb) as [level tb0].
  destruct (Qeq_bool _ 0); [discriminate |].
  destruct (Qeq_bool _ _); [discriminate |].
  destruct (Qltb _ _);
    match goal with
    | |- context [Motor.ramp ?a ?b ?c ?d ?e] =>
        destruct (Motor.ramp a b c d e) as [dpl [m1 tb1]]
    end;
    destruct (_ && _); discriminate.
Qed.

(** C8, where the code departs from it: the board answers "no reading" to
    every read.  [get_current_power_level] gives up after 20 of the 25
    failed reads scripted here and answers 0.0; [accelerate(50.0, NORMAL, -1)]
    then does not raise: it takes the motor to be at rest and ramps the
    power up from 0.0 to 0.48. *)
Lemma accelerate_assumes_zero_when_unreadable :
  Motor.get_current_power_level port_motor (board (repeat None 25))
  = (0, board (repeat None 5))
  /\ (exists m tb,
         Motor.accelerate 50 SlewRate.NORMAL (-1) [] port_motor (board (repeat None 25))
         = Return (m, tb)
         /\ Motor.sent m tb
            = [48 # 100; 40 # 100; 32 # 100; 24 # 100; 16 # 100; 8 # 100; 0 # 100])
  /\ Motor.accelerate 50 SlewRate.NORMAL (-1) [] port_motor (board (repeat None 25))
     = Motor.accelerate 50 SlewRate.NORMAL (-1) [] port_motor (board [Some 0]).
Proof.
  split; [reflexivity | split; [| vm_compute; reflexivity]].
  eexists. eexists. split; vm_compute; reflexivity.
Qed.

(** ** [Motor.stepAstern] *)

(** What one call of [set_motor_power] adds to the motor's output: nothing,
    or the driving power of the level it was given. *)
Lemma set_motor_power_sent (p : Q) (m : Motor.t) (tb : ThunderBorg.t) :
  Motor.sent m (snd (snd (Motor.set_motor_power p m tb))) = Motor.sent m tb
  \/ Motor.sent m (snd (snd (Motor.set_motor_power p m tb)))
     = p * Motor.max_power_ratio m :: Motor.sent m tb.
Proof.
  pose proof (get_current_power_level_own_sent m tb) as Hs.
  destruct (set_motor_power_cases p m tb)
    as [[_ E] | [[_ E] | [(_ & _ & _ & _ & E) | [(_ & _ & _ & _ & E) | (_ & _ & E)]]]];
    rewrite E; cbn [fst snd]; auto.
  right. now rewrite sent_SetMotor, Hs.
Qed.
















(** The powers the two commands send from rest at speed 50: [stepAstern]
    ramps up through 0.0, 0.08, ..., 0.48; [astern] ramps down to -0.48. *)
Lemma stepAstern_and_astern_ramps :
  (exists m' tb',
      Motor.stepAstern 50 100 [] port_motor (board [Some 0]) = Return (m', tb')
      /\ Motor.sent port_motor tb'
         = [48 # 100; 40 # 100; 32 # 100; 24 # 100; 16 # 100; 8 # 100; 0 # 100])
  /\ (exists m' tb',
         Motor.astern 50 [] port_motor (board [Some 0]) = Return (m', tb')
         /\ Motor.sent port_motor tb'
            = [-48 # 100; -40 # 100; -32 # 100; -24 # 100; -16 # 100; -8 # 100; 0 # 100]).
Proof.
  split; eexists; eexists; split; vm_compute; reflexivity.
Qed.

(** ** [PID._compute] *)

Section Compute.

Context {SL : Type} `{SlewLimiter SL}.

(** The clip keeps its argument within the symmetric bounds, and leaves a
    value strictly inside them alone. *)
Lemma clip_bounds (p : PID.t SL) (n : Q) :
  0 <= PID.clip_max p -> - PID.clip_max p <= PID.clip p n <= PID.clip_max p.
Proof.
  intros Hc. unfold PID.clip.
  destruct (Qle_bool n (-1 * PID.clip_max p)) eqn:E1;
    [| destruct (Qgeb n (PID.clip_max p)) eqn:E2]; order_of_tests.
  - lra.
  - lra.
  - apply Qle_bool_gt in E2. lra.
Qed.

Lemma clip_inside (p : PID.t SL) (n : Q) :
  - PID.clip_max p < n < PID.clip_max p -> PID.clip p n = n.
Proof.
  intros [Hlo Hhi]. unfold PID.clip.
  destruct (Qle_bool n (-1 * PID.clip_max p)) eqn:E1; order_of_tests; [lra |].
  destruct (Qgeb n (PID.clip_max p)) eqn:E2; order_of_tests; [lra | reflexivity].
Qed.

(** C6: on a tick whose velocity error is not zero within tolerance,
    [_compute] sums P = kp * error, I = ki * sum_errors (the sum before
    this tick) and D = kd * last_error (the error of the previous tick),
    each 0 when disabled, clips the sum to the symmetric bounds, hands
    [set_motor_power] the current power plus the clipped output, then
    stores the error in [last_error], adds it to [sum_errors], and returns
    true. *)
Theorem compute_applies_pid_terms
        (target_velocity : Q) (p : PID.t SL) (m : Motor.t) (tb : ThunderBorg.t) :
  ~ Motor.get_max_power_ratio m == 0 ->
  PID.equals_zero (target_velocity - Motor.get_velocity m) = false ->
  let error := target_velocity - Motor.get_velocity m in
  let p_diff := if PID.enable_p p then PID.kp p * error else 0 in
  let i_diff := if PID.enable_i p then PID.ki p * PID.sum_errors p else 0 in
  let d_diff := if PID.enable_d p then PID.kd p * PID.last_error p else 0 in
  let output := p_diff + i_diff + d_diff in
  let current_power :=
    fst (Motor.get_current_power_level m tb) * (1 / Motor.get_max_power_ratio m) in
  let power_level := current_power + PID.clip p output in
  exists (p' : PID.t SL) (m' : Motor.t) (tb' : ThunderBorg.t),
    PID._compute target_velocity p m tb = Return (true, (p', m', tb'))
    /\ (m', tb') = snd (Motor.set_motor_power power_level m
                          (snd (Motor.get_current_power_level m tb)))
    /\ PID.last_error p' = error
    /\ PID.sum_errors p' = PID.sum_errors p + error
    /\ (0 <= PID.clip_max p ->
        - PID.clip_max p <= PID.clip p output <= PID.clip_max p).
Proof.
  intros Hratio Herr error p_diff i_diff d_diff output current_power power_level.
  subst error p_diff i_diff d_diff output current_power power_level.
  unfold PID._compute, pydiv, bind.
  destruct (Motor.get_current_power_level m tb) as [level tb0]. cbn [fst snd].
  destruct (Qeq_bool (Motor.get_max_power_ratio m) 0) eqn:Er;
    [apply Qeq_bool_iff in Er; contradiction |].
  rewrite Herr.
  match goal with
  | |- context [Motor.set_motor_power ?x m tb0] =>
      destruct (Motor.set_motor_power x m tb0) as [o [m1 tb1]] eqn:Es
  end.
  cbn [snd].
  eexists. exists m1, tb1.
  split; [reflexivity |].
  split; [reflexivity |].
  split; [reflexivity |].
  split; [reflexivity |].
  apply clip_bounds.
Qed.

End Compute.

(** An instance of C6: velocity 0, target 30, gains 0.001, clip at 1,
    the driver reporting power 0: the output is 0.03 and the power
    commanded is 0.03. *)
Lemma compute_applies_pid_terms_example :
  exists (p' : PID.t unit) (m' : Motor.t) (tb' : ThunderBorg.t),
    PID._compute 30 plain_pid port_motor (board [Some 0; Some 0])
    = Return (true, (p', m', tb'))
    /\ PID.last_error p' = 30 - 0
    /\ PID.sum_errors p' = 0 + (30 - 0)
    /\ length (Motor.sent m' tb') = 1%nat
    /\ hd 0 (Motor.sent m' tb') == 3 # 100.
Proof.
  destruct (compute_applies_pid_terms 30 plain_pid port_motor (board [Some 0; Some 0]))
    as (p' & m' & tb' & Hc & Hs & Hl & Hsum & _).
  - discriminate.
  - reflexivity.
  - exists p', m', tb'. vm_compute in Hs. injection Hs as -> ->.
    repeat split; assumption.
Defined.

(** ** The accumulators over a run of [PID.step_to] *)


Section Runs.

Context {SL : Type} `{SlewLimiter SL}.

(** The constructor is where the accumulators are set to 0.0. *)
Lemma init_clears_accumulators (c : PID.Config) (sl : SL) :
  PID.last_error (PID.init c sl) = 0 /\ PID.sum_errors (PID.init c sl) = 0.
Proof. split; reflexivity. Qed.





End Runs.


(** * Further properties *)

(** ** [Heading.get_heading_from_degrees] *)

(** The boolean tests of a chain of [if]s, as order statements. *)
Ltac order_of_chain :=
  repeat match goal with
  | H : _ || _ = true |- _ => apply orb_true_iff in H
  | H : _ || _ = false |- _ => apply orb_false_iff in H; destruct H
  | H : _ && _ = true |- _ => apply andb_true_iff in H; destruct H
  | H : _ && _ = false |- _ => apply andb_false_iff in H
  | H : Qltb _ _ = true \/ _ |- _ => rewrite Qltb_lt in H
  | H : Qgtb _ _ = true \/ _ |- _ => rewrite Qgtb_gt in H
  | H : _ \/ Qltb _ _ = true |- _ => rewrite Qltb_lt in H
  | H : Qle_bool _ _ = false \/ _ |- _ => rewrite Qle_bool_gt in H
  | H : _ \/ Qle_bool _ _ = false |- _ => rewrite Qle_bool_gt in H
  | H : Qltb _ _ = false \/ _ |- _ => rewrite Qltb_ge in H
  end; order_of_tests.

(** The sectors of [get_heading_from_degrees], in the order of the tests. *)
Lemma get_heading_from_degrees_cases (degrees : Q) :
  ((33725 # 100 < degrees \/ degrees < 225 # 10)
   /\ Heading.get_heading_from_degrees degrees = Some Heading.NORTH)
  \/ (2925 # 10 <= degrees <= 33725 # 100
      /\ Heading.get_heading_from_degrees degrees = Some Heading.NORTHWEST)
  \/ (2025 # 10 <= degrees <= 2475 # 10
      /\ Heading.get_heading_from_degrees degrees = Some Heading.SOUTHWEST)
  \/ (1575 # 10 <= degrees < 2025 # 10
      /\ Heading.get_heading_from_degrees degrees = Some Heading.SOUTH)
  \/ (1125 # 10 <= degrees < 1575 # 10
      /\ Heading.get_heading_from_degrees degrees = Some Heading.SOUTHEAST)
  \/ (675 # 10 <= degrees < 1125 # 10
      /\ Heading.get_heading_from_degrees degrees = Some Heading.EAST)
  \/ (225 # 10 <= degrees < 675 # 10
      /\ Heading.get_heading_from_degrees degrees = Some Heading.NORTHEAST)
  \/ (2475 # 10 < degrees < 2925 # 10
      /\ Heading.get_heading_from_degrees degrees = None).
Proof.
  unfold Heading.get_heading_from_degrees.
  destruct (Qgtb degrees (33725 # 100) || Qltb degrees (225 # 10)) eqn:E1;
    [left; order_of_chain; auto |].
  destruct (Qle_bool (2925 # 10) degrees && Qle_bool degrees (33725 # 100)) eqn:E2;
    [right; left; order_of_chain; auto |].
  destruct (Qltb (2475 # 10) (- degrees) && Qle_bool (- degrees) (2925 # 10)) eqn:E3;
    [exfalso; order_of_chain; lra |].
  destruct (Qle_bool (2025 # 10) degrees && Qle_bool degrees (2475 # 10)) eqn:E4;
    [do 2 right; left; order_of_chain; auto |].
  destruct (Qle_bool (1575 # 10) degrees && Qle_bool degrees (2025 # 10)) eqn:E5;
    [do 3 right; left; order_of_chain; split; [lra | reflexivity] |].
  destruct (Qle_bool (1125 # 10) degrees && Qle_bool degrees (1575 # 10)) eqn:E6;
    [do 4 right; left; order_of_chain; split; [lra | reflexivity] |].
  destruct (Qle_bool (675 # 10) degrees && Qle_bool degrees (1125 # 10)) eqn:E7;
    [do 5 right; left; order_of_chain; split; [lra | reflexivity] |].
  destruct (Qle_bool 0 degrees && Qle_bool degrees (675 # 10)) eqn:E8;
    [do 6 right; left; order_of_chain; split; [lra | reflexivity] |].
  do 7 right. order_of_chain. split; [lra | reflexivity].
Qed.

(** X1: [get_heading_from_degrees] returns no heading (None) exactly for
    the angles strictly between 247.5 and 292.5, and never returns WEST:
    the test for that sector compares the negated angle. *)
Theorem get_heading_from_degrees_has_no_west (degrees : Q) :
  (Heading.get_heading_from_degrees degrees = None
   <-> 2475 # 10 < degrees < 2925 # 10)
  /\ Heading.get_heading_from_degrees degrees <> Some Heading.WEST.
Proof.
  destruct (get_heading_from_degrees_cases degrees)
    as [[B ->] | [[B ->] | [[B ->] | [[B ->] | [[B ->] | [[B ->] | [[B ->] | [B ->]]]]]]]];
    (split; [split; [intros E; try discriminate E; exact B
                    | intros C; try reflexivity; exfalso; lra]
            | discriminate]).
Qed.

(** X2: whenever a heading is returned for an angle from 0 to 360, the
    angle is within 22.5 degrees of the heading's compass bearing, or the
    heading is NORTH and the angle is less than 22.75 degrees short of
    360. *)
Theorem get_heading_from_degrees_sector (degrees : Q) (h : Heading.t) :
  0 <= degrees <= 360 ->
  Heading.get_heading_from_degrees degrees = Some h ->
  Qabs (degrees - bearing h) <= 45 # 2
  \/ (h = Heading.NORTH /\ Qabs (degrees - 360) < 91 # 4).
Proof.
  intros [Hlo Hhi].
  destruct (get_heading_from_degrees_cases degrees)
    as [[B ->] | [[B ->] | [[B ->] | [[B ->] | [[B ->] | [[B ->] | [[B ->] | [B ->]]]]]]]];
    intros E; try discriminate E; injection E as <-; cbn [bearing].
  - destruct B as [B | B].
    + right. split; [reflexivity | apply Qabs_Qlt_condition; lra].
    + left. apply Qabs_Qle_condition. lra.
  - left. apply Qabs_Qle_condition. lra.
  - left. apply Qabs_Qle_condition. lra.
  - left. apply Qabs_Qle_condition. lra.
  - left. apply Qabs_Qle_condition. lra.
  - left. apply Qabs_Qle_condition. lra.
  - left. apply Qabs_Qle_condition. lra.
Qed.

(** An instance of X2: 100 degrees is EAST, 10 degrees from its bearing. *)
Lemma get_heading_from_degrees_sector_example :
  Heading.get_heading_from_degrees 100 = Some Heading.EAST
  /\ (Qabs (100 - bearing Heading.EAST) <= 45 # 2
      \/ (Heading.EAST = Heading.NORTH /\ Qabs (100 - 360) < 91 # 4)).
Proof.
  split; [reflexivity |].
  apply (get_heading_from_degrees_sector 100 Heading.EAST).
  - split; discriminate.
  - reflexivity.
Defined.

(** ** [Velocity.get_slower_than], further *)

Lemma get_slower_than_cases (x : Q) :
  (x < 20 /\ Velocity.get_slower_than x = Velocity.STOP)
  \/ (20 <= x < 30 /\ Velocity.get_slower_than x = Velocity.DEAD_SLOW)
  \/ (30 <= x < 50 /\ Velocity.get_slower_than x = Velocity.SLOW)
  \/ (50 <= x < 667 # 10 /\ Velocity.get_slower_than x = Velocity.HALF)
  \/ (667 # 10 <= x < 75 /\ Velocity.get_slower_than x = Velocity.TWO_THIRDS)
  \/ (75 <= x < 90 /\ Velocity.get_slower_than x = Velocity.THREE_QUARTER)
  \/ (90 <= x /\ Velocity.get_slower_than x = Velocity.FULL).
Proof.
  unfold Velocity.get_slower_than. cbn [Velocity.value].
  repeat match goal with
  | |- context [Qltb x ?v] => destruct (Qltb x v) eqn:?
  end; order_of_tests; auto 12.
Qed.

(** X3: the setpoint [get_slower_than] returns is never above a
    non-negative input and never above FULL, and a larger input never gives
    a lower setpoint. *)
Theorem get_slower_than_never_faster :
  (forall x : Q, 0 <= x -> Velocity.value (Velocity.get_slower_than x) <= x)
  /\ (forall x : Q, Velocity.value (Velocity.get_slower_than x) <= 90)
  /\ (forall x y : Q,
         x <= y ->
         Velocity.value (Velocity.get_slower_than x)
         <= Velocity.value (Velocity.get_slower_than y)).
Proof.
  split; [| split].
  - intros x Hx.
    destruct (get_slower_than_cases x)
      as [[B ->] | [[B ->] | [[B ->] | [[B ->] | [[B ->] | [[B ->] | [B ->]]]]]]];
      cbn [Velocity.value]; lra.
  - intros x.
    destruct (get_slower_than_cases x)
      as [[B ->] | [[B ->] | [[B ->] | [[B ->] | [[B ->] | [[B ->] | [B ->]]]]]]];
      cbn [Velocity.value]; lra.
  - intros x y Hxy.
    destruct (get_slower_than_cases x)
      as [[B ->] | [[B ->] | [[B ->] | [[B ->] | [[B ->] | [[B ->] | [B ->]]]]]]];
    destruct (get_slower_than_cases y)
      as [[C ->] | [[C ->] | [[C ->] | [[C ->] | [[C ->] | [[C ->] | [C ->]]]]]]];
      cbn [Velocity.value]; lra.
Qed.

(** An instance of X3. *)
Lemma get_slower_than_never_faster_example :
  Velocity.value (Velocity.get_slower_than 45) <= 45
  /\ Velocity.value (Velocity.get_slower_than 45)
     <= Velocity.value (Velocity.get_slower_than 80).
Proof.
  destruct get_slower_than_never_faster as (Hle & _ & Hmono).
  split; [apply Hle | apply Hmono]; discriminate.
Defined.

(** X4: [get_slower_than] applied to the value of the setpoint it
    returned gives the same setpoint again: staging down by repeated calls
    stays where the first call arrived. *)
Theorem get_slower_than_idempotent (x : Q) :
  Velocity.get_slower_than (Velocity.value (Velocity.get_slower_than x))
  = Velocity.get_slower_than x.
Proof.
  destruct (get_slower_than_cases x)
    as [[B ->] | [[B ->] | [[B ->] | [[B ->] | [[B ->] | [[B ->] | [B ->]]]]]]];
    reflexivity.
Qed.

(** ** [Motor.set_motor_power], further *)

Lemma get_current_power_level_elsewhere (m : Motor.t) (tb : ThunderBorg.t) :
  sent_elsewhere m (snd (Motor.get_current_power_level m tb)) = sent_elsewhere m tb.
Proof.
  destruct (get_current_power_level_sent m tb) as [H1 H2].
  unfold sent_elsewhere. destruct (Motor.orientation m); assumption.
Qed.

Lemma SetMotor_elsewhere (m : Motor.t) (d : Q) (tb : ThunderBorg.t) :
  sent_elsewhere m (Motor.SetMotor m d tb) = sent_elsewhere m tb.
Proof.
  unfold sent_elsewhere, Motor.SetMotor. destruct (Motor.orientation m); reflexivity.
Qed.

Lemma elsewhere_orientation (m m' : Motor.t) (tb : ThunderBorg.t) :
  Motor.orientation m' = Motor.orientation m ->
  sent_elsewhere m' tb = sent_elsewhere m tb.
Proof. unfold sent_elsewhere. now intros ->. Qed.

Lemma set_motor_power_elsewhere (p : Q) (m : Motor.t) (tb : ThunderBorg.t) :
  sent_elsewhere m (snd (snd (Motor.set_motor_power p m tb))) = sent_elsewhere m tb.
Proof.
  pose proof (get_current_power_level_elsewhere m tb) as Hs.
  destruct (set_motor_power_cases p m tb)
    as [[_ E] | [[_ E] | [(_ & _ & _ & _ & E) | [(_ & _ & _ & _ & E) | (_ & _ & E)]]]];
    rewrite E; cbn [fst snd]; auto.
  now rewrite SetMotor_elsewhere.
Qed.

(** After 20 failed reads the current power is taken to be 0.0. *)
Lemma get_current_power_level_unreadable (m : Motor.t) (tb : ThunderBorg.t)
      (rest : list (option Q)) :
  replies m tb = repeat None 20 ++ rest ->
  fst (Motor.get_current_power_level m tb) = 0.
Proof.
  intros Hr. unfold Motor.get_current_power_level.
  destruct (poll_gives_up m 20 tb rest Hr) as [Hv _].
  destruct (Motor.poll m 20 tb) as [[v |] tb']; simpl in *; [discriminate | reflexivity].
Qed.

(** X5: [set_motor_power] limits reversals only.  A level within the
    limit whose sign is not opposite to that of the power the driver
    reports is accepted however far it is from that power, and its driving
    power, the level times the power ratio, is sent as it is on the motor's
    own output.  The only commands rejected are levels outside the limit
    and levels of the sign opposite to the reported power. *)
Theorem set_motor_power_accepts_same_direction
        (p : Q) (m : Motor.t) (tb : ThunderBorg.t) :
  (-1 * Motor.motor_power_limit m <= p <= Motor.motor_power_limit m ->
   ~ opposite_signs (fst (Motor.get_current_power_level m tb)) p ->
   fst (Motor.set_motor_power p m tb) = Motor.Commanded (p * Motor.max_power_ratio m)
   /\ Motor.sent m (snd (snd (Motor.set_motor_power p m tb)))
      = p * Motor.max_power_ratio m :: Motor.sent m tb)
  /\ (Motor.rejected (fst (Motor.set_motor_power p m tb)) = true ->
      Motor.motor_power_limit m < p
      \/ p < -1 * Motor.motor_power_limit m
      \/ opposite_signs (fst (Motor.get_current_power_level m tb)) p).
Proof.
  pose proof (get_current_power_level_own_sent m tb) as Hs.
  destruct (set_motor_power_cases p m tb)
    as [[L E] | [[L E] | [(B & J & S1 & S2 & E) | [(B & J & S1 & S2 & E) | (B & N & E)]]]];
    rewrite E; cbn [fst snd Motor.rejected]; split.
  - intros [C1 C2] _. exfalso. clear - L C2. lra.
  - intros _. left. exact L.
  - intros [C1 C2] _. exfalso. clear - L C1. lra.
  - intros _. right. left. exact L.
  - intros _ C. exfalso. apply C. left. split; assumption.
  - intros _. right. right. left. split; assumption.
  - intros _ C. exfalso. apply C. right. split; assumption.
  - intros _. right. right. right. split; assumption.
  - intros _ _. split; [reflexivity |]. now rewrite sent_SetMotor, Hs.
  - intros C. discriminate C.
Qed.

(** An instance of X5: 0.99 is accepted when the driver reports 0.2, a
    step of 0.79 in the same direction. *)
Lemma set_motor_power_accepts_same_direction_example :
  fst (Motor.set_motor_power (99 # 100) port_motor (board [Some (2 # 10)]))
  = Motor.Commanded ((99 # 100) * 1)
  /\ Motor.sent port_motor
       (snd (snd (Motor.set_motor_power (99 # 100) port_motor (board [Some (2 # 10)]))))
     = [(99 # 100) * 1].
Proof.
  destruct (set_motor_power_accepts_same_direction
              (99 # 100) port_motor (board [Some (2 # 10)])) as [Hsend _].
  apply Hsend.
  - split; discriminate.
  - intros [[_ C] | [C _]]; discriminate C.
Defined.

(** X6: a request of exactly 0.0 is accepted whatever the driver reports,
    and when the driver reports 0.0 every level within the limit is
    accepted: a reversal can always be made through zero. *)
Theorem set_motor_power_through_zero (p : Q) (m : Motor.t) (tb : ThunderBorg.t) :
  0 <= Motor.motor_power_limit m ->
  Motor.rejected (fst (Motor.set_motor_power 0 m tb)) = false
  /\ (fst (Motor.get_current_power_level m tb) == 0 ->
      -1 * Motor.motor_power_limit m <= p <= Motor.motor_power_limit m ->
      Motor.rejected (fst (Motor.set_motor_power p m tb)) = false).
Proof.
  intros Hlimit. split.
  - destruct (set_motor_power_cases 0 m tb)
      as [[L E] | [[L E] | [(B & J & S1 & S2 & E) | [(B & J & S1 & S2 & E) | (B & N & E)]]]];
      rewrite E; cbn [fst Motor.rejected]; try reflexivity; exfalso;
      clear E; lra.
  - intros Hzero Hp.
    destruct (set_motor_power_cases p m tb)
      as [[L E] | [[L E] | [(B & J & S1 & S2 & E) | [(B & J & S1 & S2 & E) | (B & N & E)]]]];
      rewrite E; cbn [fst Motor.rejected]; try reflexivity; exfalso;
      clear E; lra.
Qed.

(** An instance of X6: from a reported 0.0, -0.9 is accepted. *)
Lemma set_motor_power_through_zero_example :
  Motor.rejected (fst (Motor.set_motor_power 0 port_motor (board [Some (9 # 10)]))) = false
  /\ Motor.rejected (fst (Motor.set_motor_power (- (9 # 10)) port_motor (board [Some 0])))
     = false.
Proof.
  split.
  - destruct (set_motor_power_through_zero 0 port_motor (board [Some (9 # 10)]))
      as [Hzero _]; [discriminate | exact Hzero].
  - destruct (set_motor_power_through_zero (- (9 # 10)) port_motor (board [Some 0]))
      as [_ Hfrom]; [discriminate |].
    apply Hfrom; [reflexivity | split; discriminate].
Defined.

(** X7: when the board gives no reading in 20 attempts, the current power
    is taken to be 0.0 and the reversal check cannot fire: every level
    within the limit is accepted and sent. *)
Theorem set_motor_power_unreadable_board
        (p : Q) (m : Motor.t) (tb : ThunderBorg.t) (rest : list (option Q)) :
  replies m tb = repeat None 20 ++ rest ->
  -1 * Motor.motor_power_limit m <= p <= Motor.motor_power_limit m ->
  fst (Motor.set_motor_power p m tb) = Motor.Commanded (p * Motor.max_power_ratio m)
  /\ Motor.sent m (snd (snd (Motor.set_motor_power p m tb)))
     = p * Motor.max_power_ratio m :: Motor.sent m tb.
Proof.
  intros Hr Hp.
  pose proof (get_current_power_level_unreadable m tb rest Hr) as Hzero.
  pose proof (get_current_power_level_own_sent m tb) as Hs.
  destruct (set_motor_power_cases p m tb)
    as [[L E] | [[L E] | [(B & J & S1 & S2 & E) | [(B & J & S1 & S2 & E) | (B & N & E)]]]];
    rewrite E; cbn [fst snd]; try (exfalso; clear E Hs; rewrite ?Hzero in *; lra).
  split; [reflexivity |]. now rewrite sent_SetMotor, Hs.
Qed.

(** An instance of X7: a board that never answers lets -0.9 through. *)
Lemma set_motor_power_unreadable_board_example :
  fst (Motor.set_motor_power (- (9 # 10)) port_motor (board (repeat None 20)))
  = Motor.Commanded (- (9 # 10) * 1)
  /\ Motor.sent port_motor
       (snd (snd (Motor.set_motor_power (- (9 # 10)) port_motor (board (repeat None 20)))))
     = [- (9 # 10) * 1].
Proof.
  apply (set_motor_power_unreadable_board (- (9 # 10)) port_motor
           (board (repeat None 20)) []).
  - reflexivity.
  - split; discriminate.
Defined.

(** ** [Motor.accelerate], [Motor.stop] and the commands built on them *)

(** The two ways [accelerate] ends on a motor whose power ratio is not
    zero: at once when the motor is at the desired power, or after the
    ramp, with a last command of 0.0 when the speed is 0.0 and the ramp
    ended away from zero. *)
Lemma accelerate_shape
      (speed : Q) (slew_rate : SlewRate.t) (steps : Z) (intr : list bool)
      (m : Motor.t) (tb : ThunderBorg.t) :
  ~ Motor.max_power_ratio m == 0 ->
  let m0 := Motor.reset_interrupt m in
  let level := fst (Motor.get_current_power_level m0 tb) in
  let tb0 := snd (Motor.get_current_power_level m0 tb) in
  let current := level * (1 / Motor.max_power_ratio m) in
  Motor.accelerate speed slew_rate steps intr m tb = Return (m0, tb0)
  \/ exists slew : Q,
      (slew = SlewRate.ratio slew_rate \/ slew = -1 * SlewRate.ratio slew_rate)
      /\ exists stop : Q,
          let r := Motor.ramp (arange current stop slew) intr 0 m0 tb0 in
          Motor.accelerate speed slew_rate steps intr m tb = Return (snd r)
          \/ Motor.accelerate speed slew_rate steps intr m tb
             = Return (fst (snd r), Motor.SetMotor (fst (snd r)) 0 (snd (snd r))).
Proof.
  intros Hratio m0 level tb0 current. subst m0 level tb0 current.
  unfold Motor.accelerate, is_None, pydiv.
  destruct (Motor.get_current_power_level (Motor.reset_interrupt m) tb) as [level tb0].
  cbn [fst snd]. change (Motor.max_power_ratio (Motor.reset_interrupt m))
    with (Motor.max_power_ratio m).
  destruct (Qeq_bool (Motor.max_power_ratio m) 0) eqn:Er;
    [apply Qeq_bool_iff in Er; contradiction |].
  cbn [bind].
  destruct (Qeq_bool (level * (1 / Motor.max_power_ratio m)) (speed / 100));
    [left; reflexivity | right].
  destruct (Qltb (level * (1 / Motor.max_power_ratio m)) (speed / 100)).
  - exists (SlewRate.ratio slew_rate). split; [auto |].
    exists (speed / 100 + (1 # 1000)). cbn zeta.
    destruct (Motor.ramp _ intr 0 (Motor.reset_interrupt m) tb0) as [d [m1 tb1]].
    cbn [fst snd]. destruct (_ && _); auto.
  - exists (-1 * SlewRate.ratio slew_rate). split; [auto |].
    exists (speed / 100 + - (1 # 1000)). cbn zeta.
    destruct (Motor.ramp _ intr 0 (Motor.reset_interrupt m) tb0) as [d [m1 tb1]].
    cbn [fst snd]. destruct (_ && _); auto.
Qed.

Section Invariant.

(** A property of the motor and the board that each primitive step of
    [accelerate] keeps. *)
Variable P : Motor.t -> ThunderBorg.t -> Prop.

Hypothesis P_set_motor_power :
  forall p m tb,
    P m tb ->
    P (fst (snd (Motor.set_motor_power p m tb))) (snd (snd (Motor.set_motor_power p m tb))).
Hypothesis P_set_interrupt : forall b m tb, P m tb -> P (Motor.set_interrupt b m) tb.
Hypothesis P_read :
  forall m tb, P m tb -> P m (snd (Motor.get_current_power_level m tb)).
Hypothesis P_zero : forall m tb, P m tb -> P m (Motor.SetMotor m 0 tb).

Lemma ramp_keeps (powers : list Q) :
  forall (intr : list bool) (level : Q) (m : Motor.t) (tb : ThunderBorg.t),
    P m tb ->
    P (fst (snd (Motor.ramp powers intr level m tb)))
      (snd (snd (Motor.ramp powers intr level m tb))).
Proof.
  induction powers as [| step_power rest IH]; intros intr level m tb HP; [exact HP |].
  cbn [Motor.ramp].
  pose proof (P_set_motor_power (step_power * Motor.max_power_ratio m) m tb HP) as H1.
  destruct (Motor.set_motor_power (step_power * Motor.max_power_ratio m) m tb)
    as [oc [m1 tb1]]. cbn [fst snd] in H1.
  assert (H2 : P (if hd false intr then Motor.interrupt m1 else m1) tb1).
  { destruct (hd false intr); [apply P_set_interrupt |]; exact H1. }
  destruct (Motor.interrupted (if hd false intr then Motor.interrupt m1 else m1));
    [exact H2 | apply IH, H2].
Qed.

Lemma accelerate_keeps
      (speed : Q) (slew_rate : SlewRate.t) (steps : Z) (intr : list bool)
      (m m' : Motor.t) (tb tb' : ThunderBorg.t) :
  P m tb ->
  Motor.accelerate speed slew_rate steps intr m tb = Return (m', tb') ->
  P m' tb'.
Proof.
  intros HP. unfold Motor.accelerate, is_None, pydiv.
  assert (H0 : P (Motor.reset_interrupt m)
                 (snd (Motor.get_current_power_level (Motor.reset_interrupt m) tb))).
  { apply P_read, P_set_interrupt, HP. }
  destruct (Motor.get_current_power_level (Motor.reset_interrupt m) tb) as [level tb0].
  cbn [snd] in H0.
  destruct (Qeq_bool _ 0); [discriminate |]. cbn [bind].
  destruct (Qeq_bool _ _); [intros E; injection E as <- <-; exact H0 |].
  destruct (Qltb _ _);
    match goal with
    | |- context [Motor.ramp ?a intr 0 ?b tb0] =>
        pose proof (ramp_keeps a intr 0 b tb0 H0) as H1;
        destruct (Motor.ramp a intr 0 b tb0) as [d [m1 tb1]]
    end; cbn [fst snd] in H1;
    destruct (_ && _); intros E; injection E as <- <-;
    solve [exact H1 | apply P_zero, H1].
Qed.

End Invariant.

Lemma set_motor_power_keeps_within_limit (p : Q) (m : Motor.t) (tb : ThunderBorg.t) :
  power_within_limit m tb ->
  power_within_limit (fst (snd (Motor.set_motor_power p m tb)))
                     (snd (snd (Motor.set_motor_power p m tb))).
Proof.
  intros Hinv.
  pose proof (get_current_power_level_own_sent m tb) as Hs.
  destruct (set_motor_power_cases p m tb)
    as [[_ E] | [[_ E] | [(_ & _ & _ & _ & E) | [(_ & _ & _ & _ & E) | (B & _ & E)]]]];
    rewrite E; cbn [fst snd]; try exact Hinv;
    try (unfold power_within_limit in *; now rewrite Hs).
  exists p. cbn [Motor.motor_power_limit Motor.max_power_ratio]. split.
  - apply Qabs_Qle_condition. clear - B. lra.
  - change (hd 0 (Motor.sent m (Motor.SetMotor m (p * Motor.max_power_ratio m)
                                   (snd (Motor.get_current_power_level m tb))))
            == p * Motor.max_power_ratio m).
    rewrite sent_SetMotor. reflexivity.
Qed.

(** X8: [stop] and [accelerate] (and with it [ahead], [astern], [halt],
    [brake], [stepAhead] and [stepAstern]) keep the power on the motor's
    output that of a level within the limit; [stop] puts it there from any
    state. *)
Theorem accelerate_keeps_within_limit
        (speed : Q) (slew_rate : SlewRate.t) (steps : Z) (intr : list bool)
        (m : Motor.t) (tb : ThunderBorg.t) :
  0 <= Motor.motor_power_limit m ->
  power_within_limit m (Motor.stop m tb)
  /\ (power_within_limit m tb ->
      forall m' tb',
        Motor.accelerate speed slew_rate steps intr m tb = Return (m', tb') ->
        power_within_limit m' tb').
Proof.
  intros Hlimit.
  assert (Hzero : forall m1 tb1, 0 <= Motor.motor_power_limit m1 ->
                                 power_within_limit m1 (Motor.SetMotor m1 0 tb1)).
  { intros m1 tb1 H1. exists 0. split.
    - apply Qabs_Qle_condition. lra.
    - rewrite sent_SetMotor. cbn [hd]. ring. }
  split; [apply Hzero, Hlimit |].
  intros Hinv m' tb' E.
  apply (accelerate_keeps
           (fun m1 tb1 => 0 <= Motor.motor_power_limit m1 /\ power_within_limit m1 tb1))
    with (5 := conj Hlimit Hinv) (6 := E).
  - intros p m1 tb1 [H1 H2]. split.
    + pose proof (set_motor_power_keeps_configuration p m1 tb1) as (_ & _ & -> & _).
      exact H1.
    + apply set_motor_power_keeps_within_limit, H2.
  - intros b m1 tb1 H. exact H.
  - intros m1 tb1 [H1 H2]. split; [exact H1 |].
    unfold power_within_limit in *.
    now rewrite get_current_power_level_own_sent.
  - intros m1 tb1 [H1 H2]. split; [exact H1 | apply Hzero, H1].
Qed.

(** An instance of X8: [halt] on a fresh board that reports 0.4. *)
Lemma accelerate_keeps_within_limit_example :
  power_within_limit port_motor (Motor.stop port_motor (board []))
  /\ forall m' tb',
      Motor.halt [] port_motor (board [Some (4 # 10)]) = Return (m', tb') ->
      power_within_limit m' tb'.
Proof.
  destruct (accelerate_keeps_within_limit 0 SlewRate.FAST (-1) [] port_motor
              (board [Some (4 # 10)])) as [_ Hacc]; [discriminate |].
  destruct (accelerate_keeps_within_limit 0 SlewRate.FAST (-1) [] port_motor (board []))
    as [Hstop _]; [discriminate |].
  split; [exact Hstop |].
  apply Hacc. exists 0. split; [discriminate | reflexivity].
Defined.

(** X9: on a motor whose power ratio was set, by
    [set_max_power_ratio(r)], [accelerate] fails exactly when [r] is zero,
    with the [ZeroDivisionError] of [1.0 / self._max_power_ratio]; with any
    other ratio it returns, whatever the board answers and whenever it is
    interrupted. *)
Theorem accelerate_raises_iff_zero_ratio
        (speed : Q) (slew_rate : SlewRate.t) (steps : Z) (intr : list bool)
        (r : Q) (m : Motor.t) (tb : ThunderBorg.t) :
  (Motor.accelerate speed slew_rate steps intr (Motor.set_max_power_ratio r m) tb
   = Raise ZeroDivisionError
   <-> r == 0)
  /\ ((exists m' tb',
          Motor.accelerate speed slew_rate steps intr (Motor.set_max_power_ratio r m) tb
          = Return (m', tb'))
      <-> ~ r == 0).
Proof.
  change r with (Motor.max_power_ratio (Motor.set_max_power_ratio r m)) at 2 4.
  generalize (Motor.set_max_power_ratio r m). clear m r. intros m.
  destruct (Qeq_bool (Motor.max_power_ratio m) 0) eqn:Er.
  - assert (E : Motor.accelerate speed slew_rate steps intr m tb = Raise ZeroDivisionError).
    { unfold Motor.accelerate, is_None, pydiv.
      destruct (Motor.get_current_power_level (Motor.reset_interrupt m) tb) as [level tb0].
      change (Motor.max_power_ratio (Motor.reset_interrupt m))
        with (Motor.max_power_ratio m).
      now rewrite Er. }
    apply Qeq_bool_iff in Er. rewrite E. split; split; auto.
    + intros (m' & tb' & C). discriminate C.
    + intros C. contradiction.
  - apply Qeq_bool_neq in Er.
    assert (E : exists m' tb',
               Motor.accelerate speed slew_rate steps intr m tb = Return (m', tb')).
    { destruct (accelerate_shape speed slew_rate steps intr m tb Er)
        as [E | (slew & _ & stop & [E | E])]; rewrite E.
      - eauto.
      - destruct (Motor.ramp _ intr 0 _ _) as [d [m1 tb1]]. cbn [snd]. eauto.
      - eauto. }
    split; split; auto.
    + destruct E as (m' & tb' & ->). discriminate.
    + intros C. contradiction.
Qed.

(** X10: a motor commands only its own output: [set_motor_power], [stop]
    and [accelerate] add nothing to the powers commanded on the output of
    the other motor. *)
Theorem commands_stay_on_own_output
        (p speed : Q) (slew_rate : SlewRate.t) (steps : Z) (intr : list bool)
        (m : Motor.t) (tb : ThunderBorg.t) :
  sent_elsewhere m (snd (snd (Motor.set_motor_power p m tb))) = sent_elsewhere m tb
  /\ sent_elsewhere m (Motor.stop m tb) = sent_elsewhere m tb
  /\ forall m' tb',
      Motor.accelerate speed slew_rate steps intr m tb = Return (m', tb') ->
      sent_elsewhere m tb' = sent_elsewhere m tb.
Proof.
  split; [apply set_motor_power_elsewhere | split; [apply SetMotor_elsewhere |]].
  intros m' tb' E.
  apply (accelerate_keeps
           (fun m1 tb1 => Motor.orientation m1 = Motor.orientation m
                          /\ sent_elsewhere m tb1 = sent_elsewhere m tb))
    with (5 := conj eq_refl eq_refl) (6 := E).
  - intros q m1 tb1 [H1 H2].
    pose proof (set_motor_power_keeps_configuration q m1 tb1) as (Ho & _).
    split; [congruence |].
    rewrite <- (elsewhere_orientation m m1) by assumption.
    rewrite set_motor_power_elsewhere.
    rewrite (elsewhere_orientation m m1) by assumption. exact H2.
  - intros b m1 tb1 H. exact H.
  - intros m1 tb1 [H1 H2]. split; [exact H1 |].
    rewrite <- (elsewhere_orientation m m1) by assumption.
    rewrite get_current_power_level_elsewhere.
    rewrite (elsewhere_orientation m m1) by assumption. exact H2.
  - intros m1 tb1 [H1 H2]. split; [exact H1 |].
    rewrite <- (elsewhere_orientation m m1) by assumption.
    rewrite SetMotor_elsewhere.
    rewrite (elsewhere_orientation m m1) by assumption. exact H2.
Qed.

(** An instance of X10: a PORT motor going ahead leaves output 2 alone. *)
Lemma commands_stay_on_own_output_example :
  exists m' tb',
    Motor.ahead 50 [] port_motor (board [Some 0]) = Return (m', tb')
    /\ sent_elsewhere port_motor tb' = [].
Proof.
  destruct (Motor.ahead 50 [] port_motor (board [Some 0])) as [[m' tb'] | e] eqn:E.
  - exists m', tb'. split; [reflexivity |].
    destruct (commands_stay_on_own_output 0 50 SlewRate.NORMAL (-1) [] port_motor
                (board [Some 0])) as (_ & _ & Hacc).
    exact (Hacc m' tb' E).
  - vm_compute in E. discriminate E.
Defined.

(** X11: no command lowers a tracker: after [set_motor_power] and after
    [accelerate], [_max_power] and [_max_driving_power] are at least what
    they were. *)
Theorem trackers_never_decrease
        (p speed : Q) (slew_rate : SlewRate.t) (steps : Z) (intr : list bool)
        (m : Motor.t) (tb : ThunderBorg.t) :
  (Motor.max_power m <= Motor.max_power (fst (snd (Motor.set_motor_power p m tb)))
   /\ Motor.max_driving_power m
      <= Motor.max_driving_power (fst (snd (Motor.set_motor_power p m tb))))
  /\ forall m' tb',
      Motor.accelerate speed slew_rate steps intr m tb = Return (m', tb') ->
      Motor.max_power m <= Motor.max_power m'
      /\ Motor.max_driving_power m <= Motor.max_driving_power m'.
Proof.
  split; [apply set_motor_power_trackers_monotone |].
  intros m' tb' E.
  apply (accelerate_keeps
           (fun m1 tb1 => Motor.max_power m <= Motor.max_power m1
                          /\ Motor.max_driving_power m <= Motor.max_driving_power m1))
    with (5 := conj (Qle_refl _) (Qle_refl _)) (6 := E).
  - intros q m1 tb1 [H1 H2].
    destruct (set_motor_power_trackers_monotone q m1 tb1) as [M1 M2].
    split; eapply Qle_trans; eassumption.
  - intros b m1 tb1 H. exact H.
  - intros m1 tb1 H. exact H.
  - intros m1 tb1 H. exact H.
Qed.

(** An instance of X11: going ahead from rest raises both trackers. *)
Lemma trackers_never_decrease_example :
  exists m' tb',
    Motor.ahead 50 [] port_motor (board [Some 0]) = Return (m', tb')
    /\ Motor.max_power port_motor <= Motor.max_power m'
    /\ Motor.max_driving_power port_motor <= Motor.max_driving_power m'.
Proof.
  destruct (Motor.ahead 50 [] port_motor (board [Some 0])) as [[m' tb'] | e] eqn:E.
  - exists m', tb'. split; [reflexivity |].
    destruct (trackers_never_decrease 0 50 SlewRate.NORMAL (-1) [] port_motor
                (board [Some 0])) as (_ & Hacc).
    exact (Hacc m' tb' E).
  - vm_compute in E. discriminate E.
Defined.

(** What a ramp adds to the motor's output: for some of its levels, the
    level times the power ratio, twice. *)
Lemma ramp_sent_scaled (powers : list Q) :
  forall (intr : list bool) (level : Q) (m : Motor.t) (tb : ThunderBorg.t),
    exists new : list Q,
      Motor.sent m (snd (snd (Motor.ramp powers intr level m tb))) = new ++ Motor.sent m tb
      /\ Forall (fun d => exists step_power,
                     In step_power powers
                     /\ d = step_power * Motor.max_power_ratio m * Motor.max_power_ratio m)
                new
      /\ (length new <= length powers)%nat
      /\ (forall k, nth k intr false = true -> (length new <= S k)%nat).
Proof.
  induction powers as [| step_power rest IH]; intros intr level m tb.
  - exists []. simpl. repeat split; auto; lia.
  - cbn [Motor.ramp].
    pose proof (set_motor_power_sent (step_power * Motor.max_power_ratio m) m tb) as Hs.
    pose proof (set_motor_power_keeps_configuration
                  (step_power * Motor.max_power_ratio m) m tb) as (Ho & Hr & _).
    destruct (Motor.set_motor_power (step_power * Motor.max_power_ratio m) m tb)
      as [oc [m1 tb1]]. cbn [fst snd] in *.
    assert (Hnew : exists new1,
               Motor.sent m tb1 = new1 ++ Motor.sent m tb
               /\ Forall (fun d => exists sp,
                              In sp (step_power :: rest)
                              /\ d = sp * Motor.max_power_ratio m * Motor.max_power_ratio m)
                         new1
               /\ (length new1 <= 1)%nat).
    { destruct Hs as [-> | ->].
      - exists []. simpl. auto.
      - exists [step_power * Motor.max_power_ratio m * Motor.max_power_ratio m].
        split; [reflexivity |]. split; [| simpl; lia].
        constructor; [| constructor].
        exists step_power. split; [left |]; reflexivity. }
    destruct Hnew as (new1 & Hsent1 & Hall1 & Hlen1).
    set (m2 := if hd false intr then Motor.interrupt m1 else m1).
    assert (Hm2 : Motor.orientation m2 = Motor.orientation m
                  /\ Motor.max_power_ratio m2 = Motor.max_power_ratio m
                  /\ (hd false intr = true -> Motor.interrupted m2 = true)).
    { subst m2. destruct (hd false intr); cbn; auto. intuition discriminate. }
    destruct Hm2 as (Ho2 & Hr2 & Hi2).
    destruct (Motor.interrupted m2) eqn:Ei.
    + exists new1. cbn [fst snd]. repeat split; auto.
      * simpl. lia.
      * intros k _. lia.
    + destruct (IH (tl intr) (step_power * Motor.max_power_ratio m) m2 tb1)
        as (new & Hsent & Hall & Hlen & Hint).
      exists (new ++ new1).
      rewrite (sent_orientation m m2) in Hsent by assumption.
      rewrite (sent_orientation m m2 tb1) in Hsent by assumption.
      split; [rewrite Hsent, Hsent1, app_assoc; reflexivity |].
      split; [| split].
      * apply Forall_app. split; [| exact Hall1].
        rewrite Hr2 in Hall.
        eapply Forall_impl; [| exact Hall].
        intros d (sp & Hin & Hd). exists sp. split; [right |]; assumption.
      * rewrite length_app. simpl. lia.
      * intros k Hk. rewrite length_app.
        destruct k as [| k].
        -- destruct intr as [| b intr']; simpl in Hk; [discriminate |].
           subst b. simpl in Hi2. specialize (Hi2 eq_refl). congruence.
        -- assert (Hk' : nth k (tl intr) false = true).
           { destruct intr as [| b intr']; simpl in *; [destruct k; discriminate | exact Hk]. }
           specialize (Hint k Hk'). lia.
Qed.

Lemma arange_members (start stop step x : Q) :
  In x (arange start stop step) ->
  exists k : nat, x = start + inject_Z (Z.of_nat k) * step.
Proof.
  unfold arange. destruct (Qeq_bool step 0); [intros [] |].
  intros Hx. apply in_map_iff in Hx as (k & <- & _). now exists k.
Qed.

Lemma ramp_orientation (powers : list Q) (intr : list bool) (level : Q)
      (m : Motor.t) (tb : ThunderBorg.t) :
  Motor.orientation (fst (snd (Motor.ramp powers intr level m tb))) = Motor.orientation m.
Proof.
  apply (ramp_keeps (fun m1 _ => Motor.orientation m1 = Motor.orientation m)).
  - intros p m1 tb1 H1.
    pose proof (set_motor_power_keeps_configuration p m1 tb1) as (Ho & _). congruence.
  - intros b m1 tb1 H1. exact H1.
  - reflexivity.
Qed.

(** What [accelerate] adds to the motor's output, on a motor whose power
    ratio is not zero. *)
Lemma accelerate_sent
      (speed : Q) (slew_rate : SlewRate.t) (steps : Z) (intr : list bool)
      (m : Motor.t) (tb : ThunderBorg.t) :
  ~ Motor.max_power_ratio m == 0 ->
  exists m' tb' new,
    Motor.accelerate speed slew_rate steps intr m tb = Return (m', tb')
    /\ Motor.sent m tb' = new ++ Motor.sent m tb
    /\ Forall (fun d =>
                 d = 0
                 \/ exists (k : nat) (slew : Q),
                     (slew = SlewRate.ratio slew_rate
                      \/ slew = -1 * SlewRate.ratio slew_rate)
                     /\ d = (fst (Motor.get_current_power_level
                                    (Motor.reset_interrupt m) tb)
                             * (1 / Motor.max_power_ratio m)
                             + inject_Z (Z.of_nat k) * slew)
                            * Motor.max_power_ratio m * Motor.max_power_ratio m)
              new
    /\ (forall k, nth k intr false = true -> (length new <= k + 2)%nat).
Proof.
  intros Hratio.
  pose proof (get_current_power_level_own_sent (Motor.reset_interrupt m) tb) as Hs0.
  change (Motor.sent (Motor.reset_interrupt m)) with (Motor.sent m) in Hs0.
  destruct (accelerate_shape speed slew_rate steps intr m tb Hratio)
    as [E | (slew & Hslew & stop & E)].
  - do 2 eexists. exists []. split; [exact E |].
    split; [exact Hs0 |]. split; [constructor | intros; simpl; lia].
  - cbn zeta in E.
    match type of E with
    | context [Motor.ramp ?a intr 0 ?b ?c] =>
        destruct (ramp_sent_scaled a intr 0 b c) as (new & Hsent & Hall & _ & Hint);
        pose proof (ramp_orientation a intr 0 b c) as Ho;
        destruct (Motor.ramp a intr 0 b c) as [d [m1 tb1]]
    end.
    cbn [fst snd] in *.
    change (Motor.sent (Motor.reset_interrupt m)) with (Motor.sent m) in Hsent.
    change (Motor.max_power_ratio (Motor.reset_interrupt m))
      with (Motor.max_power_ratio m) in Hall.
    change (Motor.orientation (Motor.reset_interrupt m))
      with (Motor.orientation m) in Ho.
    assert (Hall' : Forall (fun d =>
                 d = 0
                 \/ exists (k : nat) (slew : Q),
                     (slew = SlewRate.ratio slew_rate
                      \/ slew = -1 * SlewRate.ratio slew_rate)
                     /\ d = (fst (Motor.get_current_power_level
                                    (Motor.reset_interrupt m) tb)
                             * (1 / Motor.max_power_ratio m)
                             + inject_Z (Z.of_nat k) * slew)
                            * Motor.max_power_ratio m * Motor.max_power_ratio m)
              new).
    { eapply Forall_impl; [| exact Hall].
      intros x (sp & Hin & ->). right.
      apply arange_members in Hin as (k & ->). exists k, slew. auto. }
    destruct E as [E | E]; rewrite E.
    + exists m1, tb1, new. rewrite Hsent, Hs0. repeat split; auto.
      intros k Hk. specialize (Hint k Hk). lia.
    + exists m1, (Motor.SetMotor m1 0 tb1), (0 :: new).
      split; [reflexivity |].
      rewrite (sent_orientation m1 m) by (symmetry; exact Ho).
      rewrite sent_SetMotor.
      rewrite (sent_orientation m m1) by exact Ho.
      rewrite Hsent, Hs0. split; [reflexivity |].
      split; [constructor; [left; reflexivity | exact Hall'] |].
      intros k Hk. specialize (Hint k Hk). simpl. lia.
Qed.

(** X12: [accelerate] scales twice.  The ramp runs over power levels, from
    the current level in steps of the slew ratio; [accelerate] multiplies
    each by the power ratio before handing it to [set_motor_power], which
    multiplies by the ratio again.  So every power [accelerate] puts on the
    output is 0.0 or a ramp level times the square of the power ratio. *)
Theorem accelerate_scales_twice
        (speed : Q) (slew_rate : SlewRate.t) (steps : Z) (intr : list bool)
        (m : Motor.t) (tb : ThunderBorg.t) :
  ~ Motor.max_power_ratio m == 0 ->
  exists m' tb' new,
    Motor.accelerate speed slew_rate steps intr m tb = Return (m', tb')
    /\ Motor.sent m tb' = new ++ Motor.sent m tb
    /\ Forall (fun d =>
                 d = 0
                 \/ exists (k : nat) (slew : Q),
                     (slew = SlewRate.ratio slew_rate
                      \/ slew = -1 * SlewRate.ratio slew_rate)
                     /\ d = (fst (Motor.get_current_power_level
                                    (Motor.reset_interrupt m) tb)
                             * (1 / Motor.max_power_ratio m)
                             + inject_Z (Z.of_nat k) * slew)
                            * Motor.max_power_ratio m * Motor.max_power_ratio m)
              new.
Proof.
  intros Hratio.
  destruct (accelerate_sent speed slew_rate steps intr m tb Hratio)
    as (m' & tb' & new & E & Hsent & Hall & _).
  exists m', tb', new. auto.
Qed.

(** An instance of X12: with a power ratio of 1/2, [ahead(50.0)] from rest
    ends with 0.12 on the output, a quarter of the level 0.48. *)
Lemma accelerate_scales_twice_example :
  (exists m' tb' new,
      Motor.ahead 50 [] (Motor.set_max_power_ratio (1 # 2) port_motor) (board [Some 0])
      = Return (m', tb')
      /\ Motor.sent port_motor tb' = new ++ []
      /\ Forall (fun d =>
                   d = 0
                   \/ exists (k : nat) (slew : Q),
                       (slew = SlewRate.ratio SlewRate.NORMAL
                        \/ slew = -1 * SlewRate.ratio SlewRate.NORMAL)
                       /\ d = (0 * (1 / (1 # 2)) + inject_Z (Z.of_nat k) * slew)
                              * (1 # 2) * (1 # 2))
                new)
  /\ (exists m' tb',
         Motor.ahead 50 [] (Motor.set_max_power_ratio (1 # 2) port_motor) (board [Some 0])
         = Return (m', tb')
         /\ hd 0 (Motor.sent port_motor tb') == 12 # 100).
Proof.
  split.
  - apply (accelerate_scales_twice 50 SlewRate.NORMAL (-1) []
             (Motor.set_max_power_ratio (1 # 2) port_motor) (board [Some 0])).
    discriminate.
  - do 2 eexists. split; vm_compute; reflexivity.
Defined.

(** X13: an interrupt stops the ramp where it is.  When another thread
    calls [interrupt()] during iteration [k] of the loop (counted from 0),
    [accelerate] commands at most [k + 1] ramp powers, followed at most by
    the closing 0.0; an interrupt flag left set before the call is cleared
    and changes nothing. *)
Theorem accelerate_stops_on_interrupt
        (speed : Q) (slew_rate : SlewRate.t) (steps : Z) (intr : list bool) (k : nat)
        (m : Motor.t) (tb : ThunderBorg.t) :
  ~ Motor.max_power_ratio m == 0 ->
  nth k intr false = true ->
  (exists m' tb' new,
      Motor.accelerate speed slew_rate steps intr m tb = Return (m', tb')
      /\ Motor.sent m tb' = new ++ Motor.sent m tb
      /\ (length new <= k + 2)%nat)
  /\ Motor.accelerate speed slew_rate steps intr (Motor.interrupt m) tb
     = Motor.accelerate speed slew_rate steps intr m tb.
Proof.
  intros Hratio Hk. split; [| reflexivity].
  destruct (accelerate_sent speed slew_rate steps intr m tb Hratio)
    as (m' & tb' & new & E & Hsent & _ & Hint).
  exists m', tb', new. auto.
Qed.

(** An instance of X13: [ahead(50.0)] interrupted during its second
    iteration commands 0.0 and 0.08 and stops. *)
Lemma accelerate_stops_on_interrupt_example :
  (exists m' tb' new,
      Motor.ahead 50 [false; true] port_motor (board [Some 0]) = Return (m', tb')
      /\ Motor.sent port_motor tb' = new ++ []
      /\ (length new <= 1 + 2)%nat)
  /\ Motor.ahead 50 [false; true] (Motor.interrupt port_motor) (board [Some 0])
     = Motor.ahead 50 [false; true] port_motor (board [Some 0]).
Proof.
  apply (accelerate_stops_on_interrupt 50 SlewRate.NORMAL (-1) [false; true] 1
           port_motor (board [Some 0])).
  - discriminate.
  - reflexivity.
Defined.

(** ** [Motor.is_stopped], [Motor.get_current_power_level] *)

(** X14: [is_stopped] answers true exactly when the reported power is
    0.0, so it and [is_in_motion] both answer false exactly when the
    reported power is negative; and a board that gives no reading in 20
    attempts makes the motor appear stopped and not in motion. *)
Theorem is_stopped_and_is_in_motion (m : Motor.t) (tb : ThunderBorg.t) :
  (fst (Motor.is_stopped m tb) = true
   <-> fst (Motor.get_current_power_level m tb) == 0)
  /\ (fst (Motor.is_stopped m tb) = false /\ fst (Motor.is_in_motion m tb) = false
      <-> fst (Motor.get_current_power_level m tb) < 0)
  /\ (forall rest,
         replies m tb = repeat None 20 ++ rest ->
         fst (Motor.is_stopped m tb) = true /\ fst (Motor.is_in_motion m tb) = false).
Proof.
  assert (Hcases : forall level : Q,
             (Qeq_bool level 0 = true <-> level == 0)
             /\ (Qeq_bool level 0 = false /\ Qgtb level 0 = false <-> level < 0)).
  { intros level. split; [apply Qeq_bool_iff |]. split.
    - intros [H1 H2]. apply Qeq_bool_neq in H1. apply Qgtb_le in H2.
      apply Qle_lteq in H2 as [H2 | H2]; [exact H2 | contradiction].
    - intros Hneg. split.
      + destruct (Qeq_bool level 0) eqn:E; [| reflexivity].
        apply Qeq_bool_iff in E. lra.
      + apply Qgtb_le. lra. }
  split; [| split].
  - unfold Motor.is_stopped.
    destruct (Motor.get_current_power_level m tb) as [level tb']. apply Hcases.
  - unfold Motor.is_stopped, Motor.is_in_motion.
    destruct (Motor.get_current_power_level m tb) as [level tb']. apply Hcases.
  - intros rest Hr.
    pose proof (get_current_power_level_unreadable m tb rest Hr) as Hzero.
    unfold Motor.is_stopped, Motor.is_in_motion.
    destruct (Motor.get_current_power_level m tb) as [level tb'].
    cbn [fst] in *. subst level. split; reflexivity.
Qed.

(** An instance of X14: a board that never answers. *)
Lemma is_stopped_and_is_in_motion_example :
  fst (Motor.is_stopped port_motor (board (repeat None 20))) = true
  /\ fst (Motor.is_in_motion port_motor (board (repeat None 20))) = false.
Proof.
  destruct (is_stopped_and_is_in_motion port_motor (board (repeat None 20)))
    as (_ & _ & Hdead).
  apply (Hdead []). reflexivity.
Defined.

(** X15: [get_current_power_level] makes at most 20 reads and commands
    nothing.  A reading that comes within the first 20 attempts is returned
    as it is and ends the reads; after 20 failed attempts the answer is 0.0
    and a 21st read is not made. *)
Theorem get_current_power_level_reads_at_most_20 (m : Motor.t) (tb : ThunderBorg.t) :
  (forall rest,
      replies m tb = repeat None 20 ++ rest ->
      fst (Motor.get_current_power_level m tb) = 0
      /\ replies m (snd (Motor.get_current_power_level m tb)) = rest)
  /\ (forall k value rest,
         (k < 20)%nat ->
         replies m tb = repeat None k ++ Some value :: rest ->
         fst (Motor.get_current_power_level m tb) = value
         /\ replies m (snd (Motor.get_current_power_level m tb)) = rest)
  /\ ThunderBorg.sent1 (snd (Motor.get_current_power_level m tb)) = ThunderBorg.sent1 tb
  /\ ThunderBorg.sent2 (snd (Motor.get_current_power_level m tb)) = ThunderBorg.sent2 tb.
Proof.
  destruct (get_current_power_level_retries m tb) as [Hnone Hsome].
  destruct (get_current_power_level_sent m tb) as [H1 H2].
  auto.
Qed.

(** An instance of X15: a reading of 0.3 at the 20th attempt is returned;
    at the 21st it is not reached. *)
Lemma get_current_power_level_reads_at_most_20_example :
  (fst (Motor.get_current_power_level port_motor
          (board (repeat None 19 ++ [Some (3 # 10)]))) = 3 # 10
   /\ replies port_motor
        (snd (Motor.get_current_power_level port_motor
                (board (repeat None 19 ++ [Some (3 # 10)])))) = [])
  /\ (fst (Motor.get_current_power_level port_motor
             (board (repeat None 20 ++ [Some (3 # 10)]))) = 0
      /\ replies port_motor
           (snd (Motor.get_current_power_level port_motor
                   (board (repeat None 20 ++ [Some (3 # 10)])))) = [Some (3 # 10)]).
Proof.
  split.
  - destruct (get_current_power_level_reads_at_most_20 port_motor
                (board (repeat None 19 ++ [Some (3 # 10)]))) as (_ & Hsome & _).
    apply (Hsome 19%nat); [lia | reflexivity].
  - destruct (get_current_power_level_reads_at_most_20 port_motor
                (board (repeat None 20 ++ [Some (3 # 10)]))) as (Hnone & _).
    apply Hnone. reflexivity.
Defined.

(** An instance of X17: a fresh motor commanded -0.5. *)
Lemma set_motor_power_tracks_driving_power_example :
  Motor.max_driving_power
    (fst (snd (Motor.set_motor_power (- (1 # 2)) port_motor (board [Some 0]))))
  = peak (Motor.sent port_motor
            (snd (snd (Motor.set_motor_power (- (1 # 2)) port_motor (board [Some 0]))))).
Proof.
  apply (set_motor_power_tracks_driving_power (- (1 # 2)) port_motor (board [Some 0])).
  reflexivity.
Defined.

(** ** [Motor.callback_step_count] *)

(** One pulse: what the callback, when it returns, has done to the step
    count, the configuration, the baseline and the two velocities. *)
Lemma callback_step_count_effect (pulse : Z) (now later : Q) (e e' : Encoder.t) :
  Encoder.callback_step_count pulse now later e = Return e' ->
  Motor.steps (Encoder.motor e') = (Motor.steps (Encoder.motor e) + count_sign e * pulse)%Z
  /\ count_sign e' = count_sign e
  /\ Encoder.sample_rate e' = Encoder.sample_rate e
  /\ (Encoder.steps_begin e' = Encoder.steps_begin e
      \/ (Encoder.steps_begin e' mod Encoder.sample_rate e = 0)%Z)
  /\ Encoder.max_velocity e <= Encoder.max_velocity e'
  /\ (Motor.velocity (Encoder.motor e') = Motor.velocity (Encoder.motor e)
      /\ Encoder.max_velocity e' = Encoder.max_velocity e
      \/ Motor.velocity (Encoder.motor e') <= Encoder.max_velocity e').
Proof.
  unfold Encoder.callback_step_count, Encoder.pymod, pydiv, bind, count_sign.
  set (steps := if negb (Encoder.reverse_encoder_orientation e) then _ else _).
  assert (Hsteps : steps = (Motor.steps (Encoder.motor e)
                            + match Motor.orientation (Encoder.motor e),
                                    Encoder.reverse_encoder_orientation e with
                              | PORT, false => 1
                              | PORT, true => -1
                              | _, false => -1
                              | _, true => 1
                              end * pulse)%Z).
  { subst steps. destruct (Encoder.reverse_encoder_orientation e);
      destruct (Motor.orientation (Encoder.motor e)); cbn [negb]; lia. }
  destruct (Encoder.sample_rate e =? 0)%Z; [discriminate |].
  destruct (steps mod Encoder.sample_rate e =? 0)%Z eqn:Emod.
  - apply Z.eqb_eq in Emod.
    destruct (negb (Encoder.steps_begin e =? 0)%Z).
    + destruct (Qeq_bool (now - Encoder.stepcount_timestamp e) 0); [discriminate |].
      destruct (Qeq_bool (Encoder.velocity_fudge_factor e) 0); [discriminate |].
      intros E. injection E as <-. cbn. rewrite <- Hsteps.
      repeat split; auto using pymax_ge_r. right. apply pymax_ge_l.
    + intros E. injection E as <-. cbn. rewrite <- Hsteps.
      repeat split; auto using Qle_refl.
  - intros E. injection E as <-. cbn. rewrite <- Hsteps.
    repeat split; auto using Qle_refl.
Qed.

(** X18: no pulse is lost or counted twice.  After any sequence of pulses
    the callback returned from, the step count has moved by the sum of the
    pulses, forwards for a PORT motor with its encoder as wired or another
    motor with its encoder reversed, backwards otherwise. *)
Theorem pulses_count_steps (ps : list (Z * Q * Q)) :
  forall e e' : Encoder.t,
    Encoder.pulses ps e = Return e' ->
    Motor.steps (Encoder.motor e')
    = (Motor.steps (Encoder.motor e) + count_sign e * pulse_sum ps)%Z.
Proof.
  induction ps as [| [[pulse now] later] rest IH]; intros e e' E.
  - injection E as <-. simpl. lia.
  - cbn [Encoder.pulses] in E. unfold bind in E.
    destruct (Encoder.callback_step_count pulse now later e) as [e1 |] eqn:E1;
      [| discriminate].
    destruct (callback_step_count_effect pulse now later e e1 E1) as (Hs & Hc & _).
    rewrite (IH e1 e' E), Hs, Hc. cbn [pulse_sum fold_right fst]. fold (pulse_sum rest).
    lia.
Qed.

(** An instance of X18: three pulses forward and one back on a STBD motor
    with its encoder as wired leave the count at -2. *)
Lemma pulses_count_steps_example :
  exists e',
    Encoder.pulses [(1%Z, 1, 1); (1%Z, 2, 2); (1%Z, 3, 3); ((-1)%Z, 4, 4)]
                   (Encoder.init (Motor.init false STBD) false 10 14 0)
    = Return e'
    /\ Motor.steps (Encoder.motor e') = (0 + -1 * 2)%Z.
Proof.
  destruct (Encoder.pulses [(1%Z, 1, 1); (1%Z, 2, 2); (1%Z, 3, 3); ((-1)%Z, 4, 4)]
                           (Encoder.init (Motor.init false STBD) false 10 14 0))
    as [e' | ex] eqn:E.
  - exists e'. split; [reflexivity |].
    exact (pulses_count_steps _ _ _ E).
  - vm_compute in E. discriminate E.
Defined.

(** X19: the baseline of the velocity measurement is always taken on a
    sample boundary: if [_steps_begin] is a multiple of the sample rate (as
    the initial 0 is), it still is after any sequence of pulses. *)
Theorem pulses_keep_baseline_on_boundary (ps : list (Z * Q * Q)) :
  forall e e' : Encoder.t,
    (Encoder.steps_begin e mod Encoder.sample_rate e = 0)%Z ->
    Encoder.pulses ps e = Return e' ->
    (Encoder.steps_begin e' mod Encoder.sample_rate e' = 0)%Z.
Proof.
  induction ps as [| [[pulse now] later] rest IH]; intros e e' Hb E.
  - injection E as <-. exact Hb.
  - cbn [Encoder.pulses] in E. unfold bind in E.
    destruct (Encoder.callback_step_count pulse now later e) as [e1 |] eqn:E1;
      [| discriminate].
    destruct (callback_step_count_effect pulse now later e e1 E1)
      as (_ & _ & Hr & Hsb & _).
    apply (IH e1 e'); [| exact E].
    rewrite Hr. destruct Hsb as [-> | Hsb]; assumption.
Qed.

(** An instance of X19: twelve pulses at a sample rate of 5 leave the
    baseline at 10. *)
Lemma pulses_keep_baseline_on_boundary_example :
  exists e',
    Encoder.pulses (steady_pulses 12) (fresh_encoder 5) = Return e'
    /\ (Encoder.steps_begin e' mod Encoder.sample_rate e' = 0)%Z
    /\ Encoder.steps_begin e' = 10%Z.
Proof.
  destruct (Encoder.pulses (steady_pulses 12) (fresh_encoder 5)) as [e' | ex] eqn:E.
  - exists e'. split; [reflexivity |]. split.
    + apply (pulses_keep_baseline_on_boundary (steady_pulses 12) (fresh_encoder 5) e');
        [reflexivity | exact E].
    + vm_compute in E. injection E as <-. reflexivity.
  - vm_compute in E. discriminate E.
Defined.

(** X20: [_max_velocity] never decreases and, once it bounds the
    velocity (as it does at construction, both being 0.0), it bounds it
    after any sequence of pulses. *)
Theorem pulses_keep_max_velocity (ps : list (Z * Q * Q)) :
  forall e e' : Encoder.t,
    Motor.velocity (Encoder.motor e) <= Encoder.max_velocity e ->
    Encoder.pulses ps e = Return e' ->
    Encoder.max_velocity e <= Encoder.max_velocity e'
    /\ Motor.velocity (Encoder.motor e') <= Encoder.max_velocity e'.
Proof.
  induction ps as [| [[pulse now] later] rest IH]; intros e e' Hb E.
  - injection E as <-. split; [apply Qle_refl | exact Hb].
  - cbn [Encoder.pulses] in E. unfold bind in E.
    destruct (Encoder.callback_step_count pulse now later e) as [e1 |] eqn:E1;
      [| discriminate].
    destruct (callback_step_count_effect pulse now later e e1 E1)
      as (_ & _ & _ & _ & Hmax & Hv).
    assert (Hb1 : Motor.velocity (Encoder.motor e1) <= Encoder.max_velocity e1).
    { destruct Hv as [[-> ->] | Hv]; assumption. }
    destruct (IH e1 e' Hb1 E) as [I1 I2].
    split; [eapply Qle_trans; eassumption | exact I2].
Qed.

(** An instance of X20: at a sample rate of 5, ten pulses one second apart
    give a velocity estimate at the second boundary, and the maximum
    follows it. *)
Lemma pulses_keep_max_velocity_example :
  exists e',
    Encoder.pulses (steady_pulses 10) (fresh_encoder 5) = Return e'
    /\ 0 <= Encoder.max_velocity e'
    /\ Motor.velocity (Encoder.motor e') <= Encoder.max_velocity e'
    /\ Motor.velocity (Encoder.motor e') == 1 # 14.
Proof.
  destruct (Encoder.pulses (steady_pulses 10) (fresh_encoder 5)) as [e' | ex] eqn:E.
  - exists e'. split; [reflexivity |].
    destruct (pulses_keep_max_velocity (steady_pulses 10) (fresh_encoder 5) e'
                (Qle_refl 0) E) as [H1 H2].
    split; [exact H1 | split; [exact H2 |]].
    vm_compute in E. injection E as <-. reflexivity.
  - vm_compute in E. discriminate E.
Defined.

(** ** [PID.set_step_limit], [PID.is_stepping], [PID._compute], [PID.step_to] *)

Section Stepping.

Context {SL : Type} `{SlewLimiter SL}.

(** X21: after [set_step_limit(direction, steps)], [is_stepping(direction)]
    answers true exactly until the step count has moved by [steps] in that
    direction: with the count [k] steps further, it is true iff
    [k < steps].  In particular it is false at once when [steps] is not
    positive. *)
Theorem set_step_limit_then_is_stepping
        (direction : Direction) (steps k : Z) (p : PID.t SL) (m m' : Motor.t) :
  Motor.steps m' = match direction with
                   | FORWARD => (Motor.steps m + k)%Z
                   | REVERSE => (Motor.steps m - k)%Z
                   end ->
  (PID.is_stepping direction (PID.set_step_limit direction steps p m) m' = true
   <-> (k < steps)%Z).
Proof.
  intros Hk. unfold PID.is_stepping, PID.set_step_limit, Motor.get_steps.
  destruct direction; cbn [PID.step_limit PID.with_step_limit]; rewrite Hk.
  - rewrite Z.ltb_lt. lia.
  - rewrite Z.gtb_ltb, Z.ltb_lt. lia.
Qed.

(** What [_compute] leaves alone, on a motor with a usable power ratio: it
    returns, counts one more call, and does not touch the step limit, the
    slewing, the gains, or the motor's steps, velocity, interrupt flag and
    configuration. *)
Lemma compute_returns
      (target_velocity : Q) (p : PID.t SL) (m : Motor.t) (tb : ThunderBorg.t) :
  ~ Motor.max_power_ratio m == 0 ->
  exists changed p' m' tb',
    PID._compute target_velocity p m tb = Return (changed, (p', m', tb'))
    /\ PID.counter p' = S (PID.counter p)
    /\ PID.step_limit p' = PID.step_limit p
    /\ PID.enable_slew p' = PID.enable_slew p
    /\ Motor.max_power_ratio m' = Motor.max_power_ratio m
    /\ Motor.motor_power_limit m' = Motor.motor_power_limit m
    /\ Motor.orientation m' = Motor.orientation m
    /\ Motor.steps m' = Motor.steps m
    /\ Motor.velocity m' = Motor.velocity m
    /\ Motor.interrupted m' = Motor.interrupted m
    /\ (changed = false <-> target_velocity - Motor.velocity m == 0).
Proof.
  intros Hratio. unfold PID._compute, pydiv, bind, Motor.get_max_power_ratio.
  destruct (Motor.get_current_power_level m tb) as [level tb0].
  destruct (Qeq_bool (Motor.max_power_ratio m) 0) eqn:Er;
    [apply Qeq_bool_iff in Er; contradiction |].
  unfold Motor.get_velocity.
  destruct (PID.equals_zero (target_velocity - Motor.velocity m)) eqn:Ez.
  - apply isclose_zero in Ez.
    assert (Hm : exists m1 tb1,
               (if Qeq_bool target_velocity 0
                then snd (Motor.set_motor_power 0 m tb0) else (m, tb0)) = (m1, tb1)
               /\ Motor.orientation m1 = Motor.orientation m
               /\ Motor.max_power_ratio m1 = Motor.max_power_ratio m
               /\ Motor.motor_power_limit m1 = Motor.motor_power_limit m
               /\ Motor.steps m1 = Motor.steps m
               /\ Motor.velocity m1 = Motor.velocity m
               /\ Motor.interrupted m1 = Motor.interrupted m).
    { destruct (Qeq_bool target_velocity 0).
      - pose proof (set_motor_power_keeps_configuration 0 m tb0) as Hk.
        destruct (Motor.set_motor_power 0 m tb0) as [o [m1 tb1]].
        exists m1, tb1. split; [reflexivity | exact Hk].
      - exists m, tb0. auto 8. }
    destruct Hm as (m1 & tb1 & -> & Ho & Hr & Hl & Hs & Hv & Hi).
    do 2 eexists. exists m1, tb1. split; [reflexivity |]. cbn.
    repeat split; auto.
  - assert (Hn : ~ target_velocity - Motor.velocity m == 0).
    { intros C. apply isclose_zero with (rtol := 2 # 100) in C.
      unfold PID.equals_zero in Ez. congruence. }
    match goal with
    | |- context [Motor.set_motor_power ?x m tb0] =>
        pose proof (set_motor_power_keeps_configuration x m tb0)
          as (Ho & Hr & Hl & Hs & Hv & Hi);
        destruct (Motor.set_motor_power x m tb0) as [oc [m1 tb1]]
    end.
    cbn [fst snd] in *.
    do 2 eexists. exists m1, tb1. split; [reflexivity |]. cbn.
    repeat split; auto; try discriminate. intros C. contradiction.
Qed.

(** The call of [_compute] in the loop, with or without the slew limiter. *)
Lemma loop_compute_returns
      (target_velocity : Q) (p : PID.t SL) (m : Motor.t) (tb : ThunderBorg.t) :
  ~ Motor.max_power_ratio m == 0 ->
  exists changed p' m' tb',
    (if PID.enable_slew p
     then let (slewed_target_velocity, sl) :=
            slew (Motor.get_velocity m) target_velocity (PID.slewlimiter p) in
          PID._compute slewed_target_velocity (PID.with_slewlimiter sl p) m tb
     else PID._compute target_velocity p m tb)
    = Return (changed, (p', m', tb'))
    /\ PID.counter p' = S (PID.counter p)
    /\ PID.step_limit p' = PID.step_limit p
    /\ PID.enable_slew p' = PID.enable_slew p
    /\ Motor.max_power_ratio m' = Motor.max_power_ratio m
    /\ Motor.steps m' = Motor.steps m
    /\ Motor.velocity m' = Motor.velocity m
    /\ Motor.interrupted m' = Motor.interrupted m.
Proof.
  intros Hratio. destruct (PID.enable_slew p) eqn:Es.
  - destruct (slew (Motor.get_velocity m) target_velocity (PID.slewlimiter p)) as [tv sl].
    destruct (compute_returns tv (PID.with_slewlimiter sl p) m tb Hratio)
      as (ch & p' & m' & tb' & E & Hc & Hl & He & Hr & _ & _ & Hs & Hv & Hi & _).
    cbn in Hc, Hl, He. exists ch, p', m', tb'. rewrite He. auto 10.
  - destruct (compute_returns target_velocity p m tb Hratio)
      as (ch & p' & m' & tb' & E & Hc & Hl & He & Hr & _ & _ & Hs & Hv & Hi & _).
    exists ch, p', m', tb'. rewrite He, Es. auto 10.
Qed.

(** The loop under an interrupt: when another thread interrupts during
    tick [k], or the flag is already set when the loop starts, the loop is
    left after at most [k + 1] (at most one) calls of [_compute]. *)
Lemma loop_stops_on_interrupt
      (target_velocity : Q) (direction : Direction) (ticks : list PID.Tick) :
  forall (k : nat) (p : PID.t SL) (m : Motor.t) (tb : ThunderBorg.t),
    ~ Motor.max_power_ratio m == 0 ->
    (exists tk, nth_error ticks k = Some tk /\ PID.tick_interrupt tk = true)
    \/ (k = 0%nat /\ ticks <> [] /\ Motor.interrupted m = true) ->
    exists p' m' tb',
      PID.loop target_velocity direction ticks p m tb = Return (PID.Left, (p', m', tb'))
      /\ (PID.counter p <= PID.counter p' <= PID.counter p + S k)%nat
      /\ PID.enable_slew p' = PID.enable_slew p.
Proof.
  induction ticks as [| tk rest IH]; intros k p m tb Hratio Hint.
  - exfalso. destruct Hint as [(tk & C & _) | (_ & C & _)];
      [destruct k; discriminate C | now apply C].
  - cbn [PID.loop].
    destruct (PID.tick_enabled tk && PID.is_stepping direction p m).
    2:{ exists p, m, tb. split; [reflexivity |]. split; [lia | reflexivity]. }
    destruct (loop_compute_returns target_velocity p m tb Hratio)
      as (ch & p1 & m1 & tb1 & -> & Hc & _ & He & Hr & _ & _ & Hi).
    cbn [bind].
    destruct (negb ch && Qeq_bool (Motor.get_velocity m1) 0
              && Qeq_bool target_velocity 0 && (PID.step_limit p1 >? 0)%Z).
    { exists p1, m1, tb1. split; [reflexivity |]. split; [lia | exact He]. }
    destruct (Motor.is_interrupted (PID.wait tk m1)) eqn:Ew.
    { exists p1, (PID.wait tk m1), tb1. split; [reflexivity |]. split; [lia | exact He]. }
    assert (Hnot : Motor.interrupted m1 = false /\ PID.tick_interrupt tk = false).
    { unfold Motor.is_interrupted, PID.wait in Ew. cbn in Ew.
      now apply orb_false_iff in Ew. }
    destruct Hnot as [Hn1 Hn2].
    destruct Hint as [(tk' & Hnth & Htk) | (_ & _ & C)]; [| congruence].
    destruct k as [| k]; [cbn in Hnth; congruence |].
    destruct (IH k p1 (PID.wait tk m1) tb1) as (p' & m' & tb' & E & Hcount & He').
    { cbn. rewrite Hr. exact Hratio. }
    { left. exists tk'. auto. }
    exists p', m', tb'. split; [exact E |]. split; [lia | congruence].
Qed.

(** X22: an interrupt ends the run at the tick it arrives in.  If another
    thread calls [interrupt()] during tick [k] (counted from 0), [step_to]
    leaves its loop after at most [k + 1] calls of [_compute]; if the
    motor's interrupt flag is still set when the run starts ([step_to] does
    not clear it first), after at most one.  On leaving, the flag is
    cleared. *)
Theorem step_to_stops_on_interrupt
        (target_velocity : Velocity.t) (direction : Direction)
        (slew_rate : SlewRate.t) (ticks : list PID.Tick) (k : nat)
        (p : PID.t SL) (m : Motor.t) (tb : ThunderBorg.t) :
  ~ Motor.max_power_ratio m == 0 ->
  (exists tk, nth_error ticks k = Some tk /\ PID.tick_interrupt tk = true)
  \/ (k = 0%nat /\ ticks <> [] /\ Motor.interrupted m = true) ->
  exists p' m' tb',
    PID.step_to target_velocity direction slew_rate ticks p m tb
    = Return (PID.Left, (p', m', tb'))
    /\ (PID.counter p <= PID.counter p' <= PID.counter p + S k)%nat
    /\ Motor.interrupted m' = false.
Proof.
  intros Hratio Hint. unfold PID.step_to.
  set (p0 := if PID.enable_slew p && negb (is_enabled (PID.slewlimiter p))
             then PID.with_slewlimiter _ p else p).
  assert (H0 : PID.counter p0 = PID.counter p).
  { subst p0. destruct (_ && _); reflexivity. }
  match goal with
  | |- context [PID.loop ?tv direction ticks p0 m tb] =>
      destruct (loop_stops_on_interrupt tv direction ticks k p0 m tb Hratio Hint)
        as (p1 & m1 & tb1 & -> & Hc & _)
  end.
  cbn [bind]. rewrite H0 in Hc.
  destruct (PID.enable_slew p1); do 3 eexists;
    (split; [reflexivity |]); cbn; auto.
Qed.

End Stepping.

(** An instance of X21: a goal of 494 steps ahead is still open after 493
    steps. *)
Lemma set_step_limit_then_is_stepping_example :
  PID.is_stepping FORWARD (PID.set_step_limit FORWARD 494 plain_pid port_motor)
                  (Encoder.with_steps 493 port_motor) = true
  <-> (493 < 494)%Z.
Proof.
  apply (set_step_limit_then_is_stepping FORWARD 494 493 plain_pid port_motor
           (Encoder.with_steps 493 port_motor)).
  reflexivity.
Defined.

(** An instance of X22: an interrupt during the second tick of a run. *)
Lemma step_to_stops_on_interrupt_example :
  exists p' m' tb',
    PID.step_to Velocity.SLOW FORWARD SlewRate.NORMAL
                [PID.mkTick true 10 10 false; PID.mkTick true 20 10 true;
                 PID.mkTick true 30 10 false]
                (PID.set_step_limit FORWARD 100 plain_pid port_motor)
                port_motor (board [])
    = Return (PID.Left, (p', m', tb'))
    /\ (0 <= PID.counter p' <= 0 + 2)%nat
    /\ Motor.interrupted m' = false.
Proof.
  apply (step_to_stops_on_interrupt
           Velocity.SLOW FORWARD SlewRate.NORMAL
           [PID.mkTick true 10 10 false; PID.mkTick true 20 10 true;
            PID.mkTick true 30 10 false] 1
           (PID.set_step_limit FORWARD 100 plain_pid port_motor) port_motor (board [])).
  - discriminate.
  - left. exists (PID.mkTick true 20 10 true). split; reflexivity.
Defined.

Section Ticks.

Context {SL : Type} `{SlewLimiter SL}.

(** A request of 0.0 is always sent, as 0.0 times the power ratio. *)
Lemma set_motor_power_zero (m : Motor.t) (tb : ThunderBorg.t) :
  0 <= Motor.motor_power_limit m ->
  Motor.sent m (snd (snd (Motor.set_motor_power 0 m tb)))
  = 0 * Motor.max_power_ratio m :: Motor.sent m tb.
Proof.
  intros Hlimit.
  pose proof (get_current_power_level_own_sent m tb) as Hs.
  destruct (set_motor_power_cases 0 m tb)
    as [[L E] | [[L E] | [(B & J & S1 & S2 & E) | [(B & J & S1 & S2 & E) | (B & N & E)]]]];
    rewrite E; cbn [fst snd]; try (exfalso; clear E Hs; lra).
  now rewrite sent_SetMotor, Hs.
Qed.

(** [_compute] on a tick without velocity error. *)
Lemma compute_at_zero_error
      (target_velocity : Q) (p : PID.t SL) (m : Motor.t) (tb : ThunderBorg.t) :
  ~ Motor.max_power_ratio m == 0 ->
  target_velocity - Motor.velocity m == 0 ->
  exists p' m' tb',
    PID._compute target_velocity p m tb = Return (false, (p', m', tb'))
    /\ PID.last_error p' = 0
    /\ PID.sum_errors p' = PID.sum_errors p
    /\ PID.counter p' = S (PID.counter p)
    /\ PID.step_limit p' = PID.step_limit p
    /\ PID.enable_slew p' = PID.enable_slew p
    /\ (m', tb') = (if Qeq_bool target_velocity 0
                    then snd (Motor.set_motor_power 0 m
                                (snd (Motor.get_current_power_level m tb)))
                    else (m, snd (Motor.get_current_power_level m tb))).
Proof.
  intros Hratio Hzero. unfold PID._compute, pydiv, bind, Motor.get_max_power_ratio.
  destruct (Motor.get_current_power_level m tb) as [level tb0].
  destruct (Qeq_bool (Motor.max_power_ratio m) 0) eqn:Er;
    [apply Qeq_bool_iff in Er; contradiction |].
  unfold Motor.get_velocity.
  apply isclose_zero with (rtol := 2 # 100) in Hzero.
  unfold PID.equals_zero. rewrite Hzero. cbn [snd].
  destruct (if Qeq_bool target_velocity 0
            then snd (Motor.set_motor_power 0 m tb0) else (m, tb0)) as [m1 tb1].
  do 3 eexists. split; [reflexivity |]. cbn. auto 8.
Qed.

(** X23: [step_to] does nothing when there is no step to go or the run is
    disabled at its first test: nothing is computed or commanded, the
    accumulators stay as they are, and the motor's interrupt flag is
    cleared.  A controller whose step limit was never set (it is 0 after
    construction) is in this case for a motor at step 0. *)
Theorem step_to_without_steps_to_go
        (target_velocity : Velocity.t) (direction : Direction)
        (slew_rate : SlewRate.t) (tk : PID.Tick) (rest : list PID.Tick)
        (p : PID.t SL) (m : Motor.t) (tb : ThunderBorg.t) :
  PID.tick_enabled tk = false \/ PID.is_stepping direction p m = false ->
  exists p' : PID.t SL,
    PID.step_to target_velocity direction slew_rate (tk :: rest) p m tb
    = Return (PID.Left, (p', Motor.reset_interrupt m, tb))
    /\ PID.last_error p' = PID.last_error p
    /\ PID.sum_errors p' = PID.sum_errors p
    /\ PID.counter p' = PID.counter p
    /\ PID.stats_queue p' = PID.stats_queue p.
Proof.
  intros Hnone. unfold PID.step_to.
  set (p0 := if PID.enable_slew p && negb (is_enabled (PID.slewlimiter p))
             then PID.with_slewlimiter _ p else p).
  assert (H0 : PID.is_stepping direction p0 m = PID.is_stepping direction p m
               /\ PID.last_error p0 = PID.last_error p
               /\ PID.sum_errors p0 = PID.sum_errors p
               /\ PID.counter p0 = PID.counter p
               /\ PID.stats_queue p0 = PID.stats_queue p).
  { subst p0. destruct (_ && _); cbn; auto. }
  destruct H0 as (Hst & Hl & Hs & Hc & Hq).
  cbn [PID.loop]. rewrite Hst.
  assert (Hcond : PID.tick_enabled tk && PID.is_stepping direction p m = false).
  { destruct Hnone as [-> | ->]; [reflexivity | apply andb_false_r]. }
  rewrite Hcond. cbn [bind].
  destruct (PID.enable_slew p0); eexists; (split; [reflexivity |]); cbn; auto.
Qed.

(** X24: a run to STOP on a motor that stands still, with a positive step
    limit and no slewing, is left after one tick: [_compute] finds no
    error, sends 0.0 to the motor and reports no change, and the loop
    breaks before it waits. *)
Theorem step_to_stop_when_stationary
        (direction : Direction) (slew_rate : SlewRate.t)
        (tk : PID.Tick) (rest : list PID.Tick)
        (p : PID.t SL) (m : Motor.t) (tb : ThunderBorg.t) :
  PID.enable_slew p = false ->
  ~ Motor.max_power_ratio m == 0 ->
  0 <= Motor.motor_power_limit m ->
  Motor.velocity m == 0 ->
  PID.tick_enabled tk = true ->
  PID.is_stepping direction p m = true ->
  (0 < PID.step_limit p)%Z ->
  exists p' m' tb',
    PID.step_to Velocity.STOP direction slew_rate (tk :: rest) p m tb
    = Return (PID.Left, (p', m', tb'))
    /\ PID.counter p' = S (PID.counter p)
    /\ PID.last_error p' = 0
    /\ PID.sum_errors p' = PID.sum_errors p
    /\ Motor.steps m' = Motor.steps m
    /\ Motor.sent m tb' = 0 * Motor.max_power_ratio m :: Motor.sent m tb.
Proof.
  intros Hslew Hratio Hlimit Hv Hen Hst Hpos. unfold PID.step_to.
  rewrite Hslew. cbn [andb].
  set (tv := match direction with
             | FORWARD => Velocity.value Velocity.STOP
             | REVERSE => -1 * Velocity.value Velocity.STOP
             end).
  assert (Htv : tv == 0) by (subst tv; destruct direction; reflexivity).
  cbn [PID.loop]. rewrite Hen, Hst, Hslew. cbn [andb].
  destruct (compute_at_zero_error tv p m tb Hratio)
    as (p1 & m1 & tb1 & -> & Hl & Hs & Hc & Hlim & He & Hm); [lra |].
  cbn [bind negb andb].
  apply Qeq_bool_iff in Htv. rewrite Htv in Hm |- *.
  pose proof (set_motor_power_zero m (snd (Motor.get_current_power_level m tb)) Hlimit)
    as Hsent.
  pose proof (set_motor_power_keeps_configuration 0 m
                (snd (Motor.get_current_power_level m tb))) as (_ & _ & _ & Hsteps & Hvel & _).
  rewrite <- Hm in Hsent, Hsteps, Hvel. cbn [fst snd] in Hsent, Hsteps, Hvel.
  rewrite get_current_power_level_own_sent in Hsent.
  assert (Hv1 : Qeq_bool (Motor.get_velocity m1) 0 = true).
  { apply Qeq_bool_iff. unfold Motor.get_velocity. rewrite Hvel. exact Hv. }
  rewrite Hv1. cbn [andb].
  assert (Hgt : (PID.step_limit p1 >? 0)%Z = true).
  { rewrite Hlim, Z.gtb_ltb. apply Z.ltb_lt. exact Hpos. }
  rewrite Hgt. cbn [bind]. rewrite He, Hslew.
  exists p1, (Motor.reset_interrupt m1), tb1. split; [reflexivity |]. auto 8.
Qed.

End Ticks.

(** An instance of X23: a run on a controller whose step limit was never
    set. *)
Lemma step_to_without_steps_to_go_example :
  exists p' : PID.t unit,
    PID.step_to Velocity.SLOW FORWARD SlewRate.NORMAL
                [PID.mkTick true 10 10 false] plain_pid port_motor (board [Some 0])
    = Return (PID.Left, (p', Motor.reset_interrupt port_motor, board [Some 0]))
    /\ PID.last_error p' = PID.last_error plain_pid
    /\ PID.sum_errors p' = PID.sum_errors plain_pid
    /\ PID.counter p' = PID.counter plain_pid
    /\ PID.stats_queue p' = PID.stats_queue plain_pid.
Proof.
  apply (step_to_without_steps_to_go Velocity.SLOW FORWARD SlewRate.NORMAL
           (PID.mkTick true 10 10 false) [] plain_pid port_motor (board [Some 0])).
  right. reflexivity.
Defined.

(** An instance of X24: a run to STOP from rest, 100 steps ahead. *)
Lemma step_to_stop_when_stationary_example :
  exists p' m' tb',
    PID.step_to Velocity.STOP FORWARD SlewRate.NORMAL
                [PID.mkTick true 0 0 false; PID.mkTick true 0 0 false]
                (PID.set_step_limit FORWARD 100 plain_pid port_motor)
                port_motor (board [Some (1 # 10); Some (1 # 10)])
    = Return (PID.Left, (p', m', tb'))
    /\ PID.counter p' = 1%nat
    /\ PID.last_error p' = 0
    /\ PID.sum_errors p' = 0
    /\ Motor.steps m' = 0%Z
    /\ Motor.sent port_motor tb' = [0 * 1].
Proof.
  apply (step_to_stop_when_stationary FORWARD SlewRate.NORMAL
           (PID.mkTick true 0 0 false) [PID.mkTick true 0 0 false]
           (PID.set_step_limit FORWARD 100 plain_pid port_motor)
           port_motor (board [Some (1 # 10); Some (1 # 10)]));
    try reflexivity; discriminate.
Defined.

Section Corrections.

Context {SL : Type} `{SlewLimiter SL}.

(** The loop on a motor that stands still, with a target of zero and a
    step limit that is not positive: nothing ends it. *)
Lemma loop_idles (target_velocity : Q) (direction : Direction) (ticks : list PID.Tick) :
  forall (p : PID.t SL) (m : Motor.t) (tb : ThunderBorg.t),
    target_velocity == 0 ->
    PID.enable_slew p = false ->
    ~ Motor.max_power_ratio m == 0 ->
    Motor.velocity m == 0 ->
    Motor.interrupted m = false ->
    (PID.step_limit p <= 0)%Z ->
    PID.is_stepping direction p m = true ->
    Forall (idle_tick m) ticks ->
    exists p' m' tb',
      PID.loop target_velocity direction ticks p m tb = Return (PID.Going, (p', m', tb'))
      /\ PID.counter p' = (PID.counter p + length ticks)%nat.
Proof.
  induction ticks as [| tk rest IH];
    intros p m tb Htv Hslew Hratio Hv Hi Hlim Hst Hidle.
  - exists p, m, tb. split; [reflexivity | simpl; lia].
  - inversion Hidle as [| x xs (Hen & Hsteps & Hvel & Hint) Hrest]; subst.
    cbn [PID.loop]. rewrite Hen, Hst, Hslew. cbn [andb].
    destruct (compute_at_zero_error target_velocity p m tb Hratio)
      as (p1 & m1 & tb1 & -> & _ & _ & Hc & Hl1 & He & Hm); [lra |].
    cbn [bind negb andb].
    assert (Hm1 : Motor.max_power_ratio m1 = Motor.max_power_ratio m
                  /\ Motor.interrupted m1 = Motor.interrupted m).
    { destruct (Qeq_bool target_velocity 0).
      - pose proof (set_motor_power_keeps_configuration 0 m
                      (snd (Motor.get_current_power_level m tb)))
          as (_ & Hr & _ & _ & _ & Hin).
        rewrite <- Hm in Hr, Hin. auto.
      - injection Hm as -> ->. auto. }
    destruct Hm1 as [Hr1 Hi1].
    assert (Hgt : (PID.step_limit p1 >? 0)%Z = false).
    { rewrite Hl1, Z.gtb_ltb. apply Z.ltb_ge. exact Hlim. }
    rewrite Hgt, andb_false_r.
    assert (Hw : Motor.is_interrupted (PID.wait tk m1) = false).
    { unfold Motor.is_interrupted, PID.wait. cbn. now rewrite Hi1, Hi, Hint. }
    rewrite Hw.
    assert (A1 : PID.enable_slew p1 = false) by congruence.
    assert (A2 : ~ Motor.max_power_ratio (PID.wait tk m1) == 0)
      by (cbn; now rewrite Hr1).
    assert (A3 : Motor.velocity (PID.wait tk m1) == 0) by exact Hvel.
    assert (A4 : Motor.interrupted (PID.wait tk m1) = false) by exact Hw.
    assert (A5 : (PID.step_limit p1 <= 0)%Z) by lia.
    assert (A6 : PID.is_stepping direction p1 (PID.wait tk m1) = true).
    { unfold PID.is_stepping, Motor.get_steps in *. cbn. now rewrite Hl1, Hsteps. }
    assert (A7 : Forall (idle_tick (PID.wait tk m1)) rest).
    { eapply Forall_impl; [| exact Hrest].
      intros t (T1 & T2 & T3 & T4). unfold idle_tick. cbn. rewrite Hsteps. auto. }
    destruct (IH p1 (PID.wait tk m1) tb1 Htv A1 A2 A3 A4 A5 A6 A7)
      as (p' & m' & tb' & E & Hcount).
    exists p', m', tb'. split; [exact E |]. rewrite Hcount, Hc. simpl. lia.
Qed.

(** X25: the guard against waiting on a motor that will not move needs a
    positive step limit.  In a run to STOP on a motor that stands still,
    with a step limit of 0 or below (as for a goal astern of step 0), the
    loop is not left: as long as the run stays enabled, the wheel does not
    move and nobody interrupts, it computes a tick after every wait. *)
Theorem step_to_stationary_guard_needs_positive_limit
        (direction : Direction) (slew_rate : SlewRate.t) (ticks : list PID.Tick)
        (p : PID.t SL) (m : Motor.t) (tb : ThunderBorg.t) :
  PID.enable_slew p = false ->
  ~ Motor.max_power_ratio m == 0 ->
  Motor.velocity m == 0 ->
  Motor.interrupted m = false ->
  (PID.step_limit p <= 0)%Z ->
  PID.is_stepping direction p m = true ->
  Forall (idle_tick m) ticks ->
  exists p' m' tb',
    PID.step_to Velocity.STOP direction slew_rate ticks p m tb
    = Return (PID.Going, (p', m', tb'))
    /\ PID.counter p' = (PID.counter p + length ticks)%nat.
Proof.
  intros Hslew Hratio Hv Hi Hlim Hst Hidle. unfold PID.step_to.
  rewrite Hslew. cbn [andb].
  match goal with
  | |- context [PID.loop ?tv direction ticks p m tb] =>
      destruct (loop_idles tv direction ticks p m tb)
        as (p' & m' & tb' & -> & Hc); auto
  end.
  - destruct direction; reflexivity.
  - cbn [bind]. exists p', m', tb'. auto.
Qed.

(** X26: on a tick without velocity error [_compute] reports no change,
    sets [last_error] to 0.0 and keeps [sum_errors]; when the target is
    zero it sends 0.0 to the motor, whatever power the driver reports, and
    otherwise it leaves the motor and its output as they are. *)
Theorem compute_snaps_to_zero
        (target_velocity : Q) (p : PID.t SL) (m : Motor.t) (tb : ThunderBorg.t) :
  ~ Motor.max_power_ratio m == 0 ->
  0 <= Motor.motor_power_limit m ->
  target_velocity - Motor.velocity m == 0 ->
  exists p' m' tb',
    PID._compute target_velocity p m tb = Return (false, (p', m', tb'))
    /\ PID.last_error p' = 0
    /\ PID.sum_errors p' = PID.sum_errors p
    /\ (target_velocity == 0 ->
        Motor.sent m tb' = 0 * Motor.max_power_ratio m :: Motor.sent m tb)
    /\ (~ target_velocity == 0 -> m' = m /\ Motor.sent m tb' = Motor.sent m tb).
Proof.
  intros Hratio Hlimit Hzero.
  destruct (compute_at_zero_error target_velocity p m tb Hratio Hzero)
    as (p' & m' & tb' & E & Hl & Hs & _ & _ & _ & Hm).
  exists p', m', tb'. repeat split; auto.
  - intros Ht. apply Qeq_bool_iff in Ht. rewrite Ht in Hm.
    pose proof (set_motor_power_zero m (snd (Motor.get_current_power_level m tb)) Hlimit)
      as Hsent.
    rewrite <- Hm in Hsent. cbn [snd] in Hsent.
    now rewrite get_current_power_level_own_sent in Hsent.
  - destruct (Qeq_bool target_velocity 0) eqn:Et;
      [apply Qeq_bool_iff in Et; contradiction | congruence].
  - destruct (Qeq_bool target_velocity 0) eqn:Et;
      [apply Qeq_bool_iff in Et; contradiction |].
    injection Hm as -> ->. apply get_current_power_level_own_sent.
Qed.

(** [_compute] on a tick with a velocity error: what it adds to the
    motor's output. *)
Lemma compute_at_error
      (target_velocity : Q) (p : PID.t SL) (m : Motor.t) (tb : ThunderBorg.t) :
  ~ Motor.max_power_ratio m == 0 ->
  ~ target_velocity - Motor.velocity m == 0 ->
  let error := target_velocity - Motor.velocity m in
  let output := (if PID.enable_p p then PID.kp p * error else 0)
                + (if PID.enable_i p then PID.ki p * PID.sum_errors p else 0)
                + (if PID.enable_d p then PID.kd p * PID.last_error p else 0) in
  let reading := fst (Motor.get_current_power_level m tb) in
  exists p' m' tb',
    PID._compute target_velocity p m tb = Return (true, (p', m', tb'))
    /\ (Motor.sent m tb' = Motor.sent m tb
        \/ Motor.sent m tb'
           = (reading * (1 / Motor.max_power_ratio m) + PID.clip p output)
             * Motor.max_power_ratio m :: Motor.sent m tb).
Proof.
  intros Hratio Herr error output reading. subst error output reading.
  unfold PID._compute, pydiv, bind, Motor.get_max_power_ratio, Motor.get_velocity.
  pose proof (get_current_power_level_own_sent m tb) as Hs0.
  destruct (Motor.get_current_power_level m tb) as [level tb0]. cbn [fst snd] in *.
  destruct (Qeq_bool (Motor.max_power_ratio m) 0) eqn:Er;
    [apply Qeq_bool_iff in Er; contradiction |].
  destruct (PID.equals_zero (target_velocity - Motor.velocity m)) eqn:Ez;
    [apply isclose_zero in Ez; contradiction |].
  match goal with
  | |- context [Motor.set_motor_power ?x m tb0] =>
      pose proof (set_motor_power_sent x m tb0) as Hsent;
      destruct (Motor.set_motor_power x m tb0) as [oc [m1 tb1]]
  end.
  cbn [fst snd] in *. rewrite Hs0 in Hsent.
  do 3 eexists. split; [reflexivity | exact Hsent].
Qed.

(** X27: one tick moves the power by no more than the clip limit allows.
    On a tick with a velocity error, the power [_compute] sends, if
    [set_motor_power] accepts it, differs from the power the driver
    reported by at most the clip limit times the magnitude of the power
    ratio. *)
Theorem compute_power_step_is_clipped
        (target_velocity : Q) (p : PID.t SL) (m : Motor.t) (tb : ThunderBorg.t) :
  ~ Motor.max_power_ratio m == 0 ->
  0 <= PID.clip_max p ->
  ~ target_velocity - Motor.velocity m == 0 ->
  exists p' m' tb',
    PID._compute target_velocity p m tb = Return (true, (p', m', tb'))
    /\ (Motor.sent m tb' = Motor.sent m tb
        \/ exists d : Q,
            Motor.sent m tb' = d :: Motor.sent m tb
            /\ Qabs (d - fst (Motor.get_current_power_level m tb))
               <= PID.clip_max p * Qabs (Motor.max_power_ratio m)).
Proof.
  intros Hratio Hclip Herr.
  destruct (compute_at_error target_velocity p m tb Hratio Herr)
    as (p' & m' & tb' & E & Hsent).
  exists p', m', tb'. split; [exact E |].
  destruct Hsent as [Hsent | Hsent]; [left; exact Hsent | right].
  eexists. split; [exact Hsent |].
  match goal with
  | |- Qabs ((?r * _ + PID.clip p ?o) * _ - _) <= _ =>
      set (reading := r); set (c := PID.clip p o);
      pose proof (clip_bounds p o Hclip) as Hc; fold c in Hc
  end.
  assert (Hd : (reading * (1 / Motor.max_power_ratio m) + c) * Motor.max_power_ratio m
               - reading == c * Motor.max_power_ratio m) by (field; exact Hratio).
  rewrite Hd, Qabs_Qmult.
  apply Qmult_le_compat_r; [| apply Qabs_nonneg].
  apply Qabs_Qle_condition. exact Hc.
Qed.

Lemma clip_sign (p : PID.t SL) (n : Q) :
  0 < PID.clip_max p ->
  (0 < n -> 0 < PID.clip p n) /\ (n < 0 -> PID.clip p n < 0).
Proof.
  intros Hc. unfold PID.clip.
  destruct (Qle_bool n (-1 * PID.clip_max p)) eqn:E1;
    [| destruct (Qgeb n (PID.clip_max p)) eqn:E2]; order_of_tests;
    split; intros Hn; lra.
Qed.

(** [_compute] on a tick with a velocity error, when the level it
    computes is within the motor's limit and is no reversal against the
    power the driver reports at the check of [set_motor_power]: the driving
    power of that level is sent. *)
Lemma compute_sends_when_accepted
      (target_velocity : Q) (p : PID.t SL) (m : Motor.t) (tb : ThunderBorg.t) :
  let error := target_velocity - Motor.velocity m in
  let output := (if PID.enable_p p then PID.kp p * error else 0)
                + (if PID.enable_i p then PID.ki p * PID.sum_errors p else 0)
                + (if PID.enable_d p then PID.kd p * PID.last_error p else 0) in
  let reading := fst (Motor.get_current_power_level m tb) in
  let power_level := reading * (1 / Motor.max_power_ratio m) + PID.clip p output in
  ~ Motor.max_power_ratio m == 0 ->
  ~ error == 0 ->
  -1 * Motor.motor_power_limit m <= power_level <= Motor.motor_power_limit m ->
  ~ opposite_signs
      (fst (Motor.get_current_power_level m (snd (Motor.get_current_power_level m tb))))
      power_level ->
  exists p' m' tb',
    PID._compute target_velocity p m tb = Return (true, (p', m', tb'))
    /\ Motor.sent m tb' = power_level * Motor.max_power_ratio m :: Motor.sent m tb.
Proof.
  intros error output reading power_level Hratio Herr Hlimit Hsign.
  subst error output reading power_level.
  unfold PID._compute, pydiv, bind, Motor.get_max_power_ratio, Motor.get_velocity.
  pose proof (get_current_power_level_own_sent m tb) as Hs0.
  destruct (Motor.get_current_power_level m tb) as [level tb0]. cbn [fst snd] in *.
  destruct (Qeq_bool (Motor.max_power_ratio m) 0) eqn:Er;
    [apply Qeq_bool_iff in Er; contradiction |].
  destruct (PID.equals_zero (target_velocity - Motor.velocity m)) eqn:Ez;
    [apply isclose_zero in Ez; contradiction |].
  pose proof (get_current_power_level_own_sent m tb0) as Hs1.
  match goal with
  | |- context [Motor.set_motor_power ?x m tb0] =>
      destruct (set_motor_power_cases x m tb0)
        as [[L E] | [[L E] | [(B & J & S1 & S2 & E) | [(B & J & S1 & S2 & E) | (B & N & E)]]]]
  end.
  - exfalso. clear - L Hlimit. lra.
  - exfalso. clear - L Hlimit. lra.
  - exfalso. apply Hsign. left. split; assumption.
  - exfalso. apply Hsign. right. split; assumption.
  - rewrite E. cbn [fst snd].
    do 3 eexists. split; [reflexivity |].
    now rewrite sent_SetMotor, Hs1, Hs0.
Qed.

(** X28: with only the proportional term enabled and a positive gain, clip
    limit and power ratio, a tick pushes the power towards the target.
    When the level it computes is within the motor's limit and is no
    reversal against the power the driver reports at the check of
    [set_motor_power], [_compute] sends a power that is above the power the
    driver reported when the motor is too slow, and below it when the motor
    is too fast. *)
Theorem compute_p_only_pushes_towards_target
        (target_velocity : Q) (p : PID.t SL) (m : Motor.t) (tb : ThunderBorg.t) :
  let error := target_velocity - Motor.velocity m in
  let output := (if PID.enable_p p then PID.kp p * error else 0)
                + (if PID.enable_i p then PID.ki p * PID.sum_errors p else 0)
                + (if PID.enable_d p then PID.kd p * PID.last_error p else 0) in
  let reading := fst (Motor.get_current_power_level m tb) in
  let power_level := reading * (1 / Motor.max_power_ratio m) + PID.clip p output in
  0 < Motor.max_power_ratio m ->
  0 < PID.clip_max p ->
  0 < PID.kp p ->
  PID.enable_p p = true -> PID.enable_i p = false -> PID.enable_d p = false ->
  ~ error == 0 ->
  -1 * Motor.motor_power_limit m <= power_level <= Motor.motor_power_limit m ->
  ~ opposite_signs
      (fst (Motor.get_current_power_level m (snd (Motor.get_current_power_level m tb))))
      power_level ->
  exists p' m' tb' d,
    PID._compute target_velocity p m tb = Return (true, (p', m', tb'))
    /\ Motor.sent m tb' = d :: Motor.sent m tb
    /\ (Motor.velocity m < target_velocity -> reading < d)
    /\ (target_velocity < Motor.velocity m -> d < reading).
Proof.
  intros error output reading power_level Hratio Hclip Hkp Ep Ei Ed Herr Hlimit Hsign.
  assert (Hr : ~ Motor.max_power_ratio m == 0) by lra.
  destruct (compute_sends_when_accepted target_velocity p m tb Hr Herr Hlimit Hsign)
    as (p' & m' & tb' & E & Hsent).
  exists p', m', tb'. eexists.
  split; [exact E |]. split; [exact Hsent |].
  subst power_level output. fold error reading. rewrite Ep, Ei, Ed.
  match goal with
  | |- context [PID.clip p ?o] =>
      destruct (clip_sign p o Hclip) as [Hpos Hneg]; set (c := PID.clip p o) in *
  end.
  assert (Hd : (reading * (1 / Motor.max_power_ratio m) + c) * Motor.max_power_ratio m
               == reading + c * Motor.max_power_ratio m) by (field; exact Hr).
  subst error.
  split; intros Hv; rewrite Hd.
  - assert (0 < c).
    { apply Hpos.
      assert (0 < PID.kp p * (target_velocity - Motor.velocity m))
        by (apply Qmult_lt_0_compat; lra).
      lra. }
    assert (0 < c * Motor.max_power_ratio m) by (apply Qmult_lt_0_compat; assumption).
    lra.
  - assert (c < 0).
    { apply Hneg.
      assert (0 < PID.kp p * (Motor.velocity m - target_velocity))
        by (apply Qmult_lt_0_compat; lra).
      lra. }
    assert (0 < (- c) * Motor.max_power_ratio m) by (apply Qmult_lt_0_compat; lra).
    lra.
Qed.

(** X29: [_clip] is a clamp.  With a clip limit that is not negative it
    leaves a value within the bounds as it is, takes a value beyond a bound
    to that bound, is idempotent, and preserves order. *)
Theorem clip_is_a_clamp (p : PID.t SL) :
  0 <= PID.clip_max p ->
  (forall n, - PID.clip_max p <= n <= PID.clip_max p -> PID.clip p n == n)
  /\ (forall n, PID.clip_max p <= n -> PID.clip p n == PID.clip_max p)
  /\ (forall n, n <= - PID.clip_max p -> PID.clip p n == - PID.clip_max p)
  /\ (forall n, PID.clip p (PID.clip p n) == PID.clip p n)
  /\ (forall n n', n <= n' -> PID.clip p n <= PID.clip p n').
Proof.
  intros Hc.
  assert (Hcases : forall n,
             (n <= - PID.clip_max p /\ PID.clip p n == - PID.clip_max p)
             \/ (PID.clip_max p <= n /\ PID.clip p n == PID.clip_max p)
             \/ (- PID.clip_max p < n < PID.clip_max p /\ PID.clip p n == n)).
  { intros n. unfold PID.clip.
    destruct (Qle_bool n (-1 * PID.clip_max p)) eqn:E1;
      [| destruct (Qgeb n (PID.clip_max p)) eqn:E2]; order_of_tests.
    - left. split; [lra | ring].
    - right. left. split; [lra | reflexivity].
    - apply Qle_bool_gt in E2. right. right. split; [lra | reflexivity]. }
  split; [| split; [| split; [| split]]].
  - intros n Hn. destruct (Hcases n) as [[B E] | [[B E] | [B E]]]; lra.
  - intros n Hn. destruct (Hcases n) as [[B E] | [[B E] | [B E]]]; lra.
  - intros n Hn. destruct (Hcases n) as [[B E] | [[B E] | [B E]]]; lra.
  - intros n. pose proof (clip_bounds p n Hc) as Hb.
    destruct (Hcases (PID.clip p n)) as [[B E] | [[B E] | [B E]]]; lra.
  - intros n n' Hn.
    destruct (Hcases n) as [[B E] | [[B E] | [B E]]];
    destruct (Hcases n') as [[B' E'] | [[B' E'] | [B' E']]]; lra.
Qed.

End Corrections.

(** An instance of X25: a run to STOP towards 100 steps astern of step 0
    (step limit -100) on a motor at rest is still in its loop after three
    ticks, having computed three times. *)
Lemma step_to_stationary_guard_needs_positive_limit_example :
  exists p' m' tb',
    PID.step_to Velocity.STOP REVERSE SlewRate.NORMAL
                [PID.mkTick true 0 0 false; PID.mkTick true 0 0 false;
                 PID.mkTick true 0 0 false]
                (PID.set_step_limit REVERSE 100 plain_pid port_motor)
                port_motor (board [])
    = Return (PID.Going, (p', m', tb'))
    /\ PID.counter p' = (0 + 3)%nat.
Proof.
  apply (step_to_stationary_guard_needs_positive_limit
           REVERSE SlewRate.NORMAL
           [PID.mkTick true 0 0 false; PID.mkTick true 0 0 false;
            PID.mkTick true 0 0 false]
           (PID.set_step_limit REVERSE 100 plain_pid port_motor) port_motor (board []));
    try reflexivity; try discriminate.
  repeat constructor.
Defined.

(** An instance of X26: target 0 at velocity 0 while the driver reports
    0.4: 0.0 is sent. *)
Lemma compute_snaps_to_zero_example :
  exists p' m' tb',
    PID._compute 0 plain_pid port_motor (board [Some (4 # 10); Some (4 # 10)])
    = Return (false, (p', m', tb'))
    /\ PID.last_error p' = 0
    /\ PID.sum_errors p' = PID.sum_errors plain_pid
    /\ Motor.sent port_motor tb' = [0 * 1].
Proof.
  destruct (compute_snaps_to_zero 0 plain_pid port_motor
              (board [Some (4 # 10); Some (4 # 10)]))
    as (p' & m' & tb' & E & Hl & Hs & Hzero & _);
    [discriminate | discriminate | reflexivity |].
  exists p', m', tb'. repeat split; try assumption.
  apply Hzero. reflexivity.
Defined.

(** An instance of X27: gains 0.001, clip limit 1, target 30 from rest. *)
Lemma compute_power_step_is_clipped_example :
  exists p' m' tb',
    PID._compute 30 plain_pid port_motor (board [Some 0; Some 0])
    = Return (true, (p', m', tb'))
    /\ (Motor.sent port_motor tb' = []
        \/ exists d : Q,
            Motor.sent port_motor tb' = [d]
            /\ Qabs (d - fst (Motor.get_current_power_level port_motor
                                (board [Some 0; Some 0])))
               <= 1 * Qabs 1).
Proof.
  apply (compute_power_step_is_clipped 30 plain_pid port_motor (board [Some 0; Some 0]));
    discriminate.
Defined.

(** An instance of X28: too slow (velocity 0, target 30), with the
    driver reporting 0.2: the level 0.23 is accepted, and the power sent is
    above 0.2. *)
Lemma compute_p_only_pushes_towards_target_example :
  exists p' m' tb' d,
    PID._compute 30 p_only_pid port_motor (board [Some (2 # 10); Some (2 # 10)])
    = Return (true, (p', m', tb'))
    /\ Motor.sent port_motor tb' = [d]
    /\ (fst (Motor.get_current_power_level port_motor
               (board [Some (2 # 10); Some (2 # 10)])) < d).
Proof.
  destruct (compute_p_only_pushes_towards_target 30 p_only_pid port_motor
              (board [Some (2 # 10); Some (2 # 10)]))
    as (p' & m' & tb' & d & E & Hsent & Hup & _);
    try reflexivity; try discriminate.
  - split; discriminate.
  - intros [[_ C] | [C _]]; discriminate C.
  - exists p', m', tb', d. split; [exact E |]. split; [exact Hsent |].
    apply Hup. reflexivity.
Defined.

(** An instance of X29: a clip limit of 1. *)
Lemma clip_is_a_clamp_example :
  PID.clip plain_pid (1 # 2) == 1 # 2
  /\ PID.clip plain_pid 7 == 1
  /\ PID.clip plain_pid (- (7)) == - (1)
  /\ PID.clip plain_pid (1 # 2) <= PID.clip plain_pid 7.
Proof.
  destruct (clip_is_a_clamp plain_pid) as (Hin & Hhi & Hlo & _ & Hmono);
    [discriminate |].
  split; [apply Hin; split; discriminate |].
  split; [apply Hhi; discriminate |].
  split; [apply Hlo; discriminate |].
  apply Hmono. discriminate.
Defined.

(** ** [Motor.halt] and [Motor.brake] *)

(** X30: [halt] and [brake] trust the reading.  When the driver reports a
    power of 0.0, and so also when it gives no reading in 20 attempts,
    both return at once without commanding anything, not even the closing
    0.0. *)
Theorem halt_and_brake_trust_the_reading
        (intr : list bool) (m : Motor.t) (tb : ThunderBorg.t) :
  ~ Motor.max_power_ratio m == 0 ->
  (fst (Motor.get_current_power_level (Motor.reset_interrupt m) tb) == 0 ->
   exists tb',
     Motor.halt intr m tb = Return (Motor.reset_interrupt m, tb')
     /\ Motor.brake intr m tb = Return (Motor.reset_interrupt m, tb')
     /\ ThunderBorg.sent1 tb' = ThunderBorg.sent1 tb
     /\ ThunderBorg.sent2 tb' = ThunderBorg.sent2 tb)
  /\ (forall rest,
         replies m tb = repeat None 20 ++ rest ->
         exists tb',
           Motor.halt intr m tb = Return (Motor.reset_interrupt m, tb')
           /\ Motor.brake intr m tb = Return (Motor.reset_interrupt m, tb')
           /\ ThunderBorg.sent1 tb' = ThunderBorg.sent1 tb
           /\ ThunderBorg.sent2 tb' = ThunderBorg.sent2 tb).
Proof.
  intros Hratio.
  assert (Hzero : fst (Motor.get_current_power_level (Motor.reset_interrupt m) tb) == 0 ->
                  exists tb',
                    Motor.halt intr m tb = Return (Motor.reset_interrupt m, tb')
                    /\ Motor.brake intr m tb = Return (Motor.reset_interrupt m, tb')
                    /\ ThunderBorg.sent1 tb' = ThunderBorg.sent1 tb
                    /\ ThunderBorg.sent2 tb' = ThunderBorg.sent2 tb).
  { intros Hz. unfold Motor.halt, Motor.brake, Motor.accelerate, is_None, pydiv.
    destruct (get_current_power_level_sent (Motor.reset_interrupt m) tb) as [S1 S2].
    destruct (Motor.get_current_power_level (Motor.reset_interrupt m) tb) as [level tb0].
    cbn [fst snd] in *.
    change (Motor.max_power_ratio (Motor.reset_interrupt m))
      with (Motor.max_power_ratio m).
    destruct (Qeq_bool (Motor.max_power_ratio m) 0) eqn:Er;
      [apply Qeq_bool_iff in Er; contradiction |].
    cbn [bind].
    assert (Hc : Qeq_bool (level * (1 / Motor.max_power_ratio m)) (0 / 100) = true).
    { apply Qeq_bool_iff. rewrite Hz. reflexivity. }
    rewrite Hc. exists tb0. auto. }
  split; [exact Hzero |].
  intros rest Hr. apply Hzero.
  rewrite (get_current_power_level_unreadable (Motor.reset_interrupt m) tb rest Hr).
  reflexivity.
Qed.

(** An instance of X30: [halt] on a board that never answers. *)
Lemma halt_and_brake_trust_the_reading_example :
  exists tb',
    Motor.halt [] port_motor (board (repeat None 20))
    = Return (Motor.reset_interrupt port_motor, tb')
    /\ Motor.brake [] port_motor (board (repeat None 20))
       = Return (Motor.reset_interrupt port_motor, tb')
    /\ ThunderBorg.sent1 tb' = []
    /\ ThunderBorg.sent2 tb' = [].
Proof.
  destruct (halt_and_brake_trust_the_reading [] port_motor (board (repeat None 20)))
    as [_ Hdead]; [discriminate |].
  apply (Hdead []). reflexivity.
Defined.
